(** * ALX Polly: the CSRF token service and the poll mutation gate

    A shallow embedding of [src/lib/csrf-protection.ts] and of the server
    actions of [src/app/lib/actions/poll-actions.ts], followed by the
    properties of the gate that the specification states.

    Conventions of the embedding.
    - A JavaScript string is a [string]; a character stands for one code
      unit in the Latin-1 range, so [String.length] is [.length].
    - The request-scoped cookie jar is a [gmap string Cookie.t].
    - A form is the list of its entries; only text fields are modelled,
      and the option index of a vote is an integer.
    - The hosted backend (authentication and the two tables) is an
      in-memory [World] with an explicit fault plan: every call of the
      client library can be made to answer [{data: null, error}]. The
      calls an action issues are recorded in a journal.
    - A server action is a state transformer over the [World] with early
      return, written in a small monad. *)

From Stdlib Require Import ZArith List Ascii String Bool Lia.
From stdpp Require Import base option list strings gmap.

Local Open Scope string_scope.
Local Open Scope list_scope.

(** ** JavaScript strings *)

Module Js.

(** White space and line terminators of ECMAScript that fit in one
    Latin-1 code unit: TAB, LF, VT, FF, CR, SP and NBSP. *)
Definition is_whitespace (c : ascii) : bool :=
  let n := nat_of_ascii c in
  ((9 <=? n)%nat && (n <=? 13)%nat) || (n =? 32)%nat || (n =? 160)%nat.

Fixpoint trimStart (s : string) : string :=
  match s with
  | EmptyString => EmptyString
  | String c r => if is_whitespace c then trimStart r else s
  end.

Fixpoint trimEnd (s : string) : string :=
  match s with
  | EmptyString => EmptyString
  | String c r =>
      match trimEnd r with
      | EmptyString => if is_whitespace c then EmptyString else String c EmptyString
      | r' => String c r'
      end
  end.

(** [String.prototype.trim] *)
Definition trim (s : string) : string := trimEnd (trimStart s).

(** [Boolean(s)] for a string: every string but the empty one is truthy. *)
Definition truthy (s : string) : bool :=
  match s with EmptyString => false | String _ _ => true end.

(** [!v] for a value that is a string, [null] or [undefined]. *)
Definition falsy (v : option string) : bool :=
  match v with Some s => negb (truthy s) | None => true end.

(** [a === b] on strings *)
Definition strict_eq (a b : string) : bool := bool_decide (a = b).

End Js.

(** ** SHA-256 (FIPS 180-4), the digest behind [createHash('sha256')] *)

Module Sha256.

Local Open Scope Z_scope.

Definition mask32 : Z := 0xffffffff.
Definition wrap (x : Z) : Z := Z.land x mask32.
Definition add32 (x y : Z) : Z := wrap (x + y).
Definition shr (n x : Z) : Z := Z.shiftr x n.
Definition rotr (n x : Z) : Z :=
  Z.lor (Z.shiftr x n) (wrap (Z.shiftl x (32 - n))).
Definition not32 (x : Z) : Z := Z.lxor x mask32.

Definition Ch (x y z : Z) : Z := Z.lxor (Z.land x y) (Z.land (not32 x) z).
Definition Maj (x y z : Z) : Z :=
  Z.lxor (Z.lxor (Z.land x y) (Z.land x z)) (Z.land y z).
Definition bsig0 (x : Z) : Z := Z.lxor (Z.lxor (rotr 2 x) (rotr 13 x)) (rotr 22 x).
Definition bsig1 (x : Z) : Z := Z.lxor (Z.lxor (rotr 6 x) (rotr 11 x)) (rotr 25 x).
Definition ssig0 (x : Z) : Z := Z.lxor (Z.lxor (rotr 7 x) (rotr 18 x)) (shr 3 x).
Definition ssig1 (x : Z) : Z := Z.lxor (Z.lxor (rotr 17 x) (rotr 19 x)) (shr 10 x).

(** The constants of the standard are carved out of prime numbers: each
    round constant is the first 32 bits of the fractional part of the cube
    root of a prime, each initial hash word those of a square root. *)
Definition is_prime (n : nat) : bool :=
  forallb (fun d => negb (n mod d =? 0)%nat) (seq 2 (n - 2)).

Definition primes_below (n : nat) : list Z :=
  map Z.of_nat (List.filter is_prime (seq 2 (n - 2))).

(** The integer cube root of [n], one bit at a time from bit [bits - 1] down. *)
Fixpoint cube_root (bits : nat) (n r : Z) : Z :=
  match bits with
  | O => r
  | S b =>
      let r' := r + Z.shiftl 1 (Z.of_nat b) in
      cube_root b n (if r' * r' * r' <=? n then r' else r)
  end.

Definition cube_root_fraction (p : Z) : Z :=
  wrap (cube_root 36 (Z.shiftl p 96) 0).

Definition square_root_fraction (p : Z) : Z :=
  wrap (Z.sqrt (Z.shiftl p 64)).

(** The sixty-four round constants, from the primes 2 to 311. *)
Definition round_constants : list Z :=
  Eval vm_compute in map cube_root_fraction (primes_below 312).

(** The eight working variables, and the chaining value between blocks. *)
Record regs : Type :=
  Regs { ra : Z; rb : Z; rc : Z; rd : Z; re : Z; rf : Z; rg : Z; rh : Z }.

Definition regs_of_list (l : list Z) : regs :=
  Regs (nth 0 l 0) (nth 1 l 0) (nth 2 l 0) (nth 3 l 0)
       (nth 4 l 0) (nth 5 l 0) (nth 6 l 0) (nth 7 l 0).

(** The initial hash value, from the primes 2 to 19. *)
Definition initial_hash : regs :=
  Eval vm_compute in regs_of_list (map square_root_fraction (primes_below 20)).

(** Padding: one 0x80 byte, zero bytes up to 56 modulo 64, then the bit
    length of the message as a 64-bit big-endian integer. *)
Definition be_bytes (n : nat) (x : Z) : list Z :=
  map (fun i => Z.land (Z.shiftr x (8 * Z.of_nat i)) 0xff) (rev (seq 0 n)).

Definition pad (msg : list Z) : list Z :=
  let len := Z.of_nat (length msg) in
  let zeros := Z.to_nat ((55 - len) mod 64) in
  msg ++ [0x80] ++ repeat 0 zeros ++ be_bytes 8 (8 * len).

Fixpoint be_words (bs : list Z) : list Z :=
  match bs with
  | b0 :: b1 :: b2 :: b3 :: rest =>
      Z.lor (Z.shiftl b0 24) (Z.lor (Z.shiftl b1 16) (Z.lor (Z.shiftl b2 8) b3))
      :: be_words rest
  | _ => []
  end.

(** The message schedule: [win] holds the sixteen most recent words,
    oldest first. *)
Fixpoint schedule (n : nat) (win : list Z) : list Z :=
  match n with
  | O => []
  | S n' =>
      let nxt := add32 (add32 (ssig1 (nth 14 win 0)) (nth 9 win 0))
                       (add32 (ssig0 (nth 1 win 0)) (nth 0 win 0)) in
      nxt :: schedule n' (tl win ++ [nxt])
  end.

Definition round (s : regs) (kw : Z * Z) : regs :=
  let t1 := add32 (add32 (add32 (rh s) (bsig1 (re s)))
                         (add32 (Ch (re s) (rf s) (rg s)) (fst kw))) (snd kw) in
  let t2 := add32 (bsig0 (ra s)) (Maj (ra s) (rb s) (rc s)) in
  Regs (add32 t1 t2) (ra s) (rb s) (rc s) (add32 (rd s) t1) (re s) (rf s) (rg s).

Definition compress (h : regs) (block : list Z) : regs :=
  let w16 := be_words block in
  let ws := w16 ++ schedule 48 w16 in
  let s := fold_left round (combine round_constants ws) h in
  Regs (add32 (ra h) (ra s)) (add32 (rb h) (rb s))
       (add32 (rc h) (rc s)) (add32 (rd h) (rd s))
       (add32 (re h) (re s)) (add32 (rf h) (rf s))
       (add32 (rg h) (rg s)) (add32 (rh h) (rh s)).

Fixpoint blocks (n : nat) (h : regs) (bs : list Z) : regs :=
  match n with
  | O => h
  | S n' => blocks n' (compress h (firstn 64 bs)) (skipn 64 bs)
  end.

Definition digest_words (h : regs) : list Z :=
  [ra h; rb h; rc h; rd h; re h; rf h; rg h; rh h].

(** The 32 bytes of the digest of a byte message. *)
Definition digest (msg : list Z) : list Z :=
  let p := pad msg in
  flat_map (be_bytes 4) (digest_words (blocks (length p / 64)%nat initial_hash p)).

End Sha256.

(** ** Encodings used by Node's [crypto] *)

Module Encoding.

Local Open Scope Z_scope.

Definition hex_digit (n : Z) : ascii :=
  if n <? 10 then ascii_of_nat (Z.to_nat (48 + n))
  else ascii_of_nat (Z.to_nat (87 + n)).

(** [Buffer.prototype.toString('hex')]: two lowercase digits per byte. *)
Fixpoint hex (bs : list Z) : string :=
  match bs with
  | [] => EmptyString
  | b :: rest =>
      String (hex_digit (Z.land (Z.shiftr b 4) 0xf))
        (String (hex_digit (Z.land b 0xf)) (hex rest))
  end.

(** UTF-8 of a string of Latin-1 code units: one byte below U+0080, two
    bytes from there on. *)
Fixpoint utf8 (s : string) : list Z :=
  match s with
  | EmptyString => []
  | String c r =>
      let n := Z.of_nat (nat_of_ascii c) in
      if n <? 128 then n :: utf8 r
      else Z.lor 0xc0 (Z.shiftr n 6) :: Z.lor 0x80 (Z.land n 0x3f) :: utf8 r
  end.

End Encoding.

Definition sha256_hex (s : string) : string :=
  Encoding.hex (Sha256.digest (Encoding.utf8 s)).

(** ** Data model *)

(** The identity returned by the authentication service. *)
Module User.
Record AppMetadata : Type := { role : option string }.
Record t : Type := { id : string; email : string; app_metadata : option AppMetadata }.
End User.

(** A row of the [polls] table. *)
Module Poll.
Record t : Type :=
  { id : string; user_id : string; question : string; options : list string }.
End Poll.

(** A row of the [votes] table. *)
Module Vote.
Record t : Type := { poll_id : string; user_id : string; option_index : Z }.
End Vote.

(** A cookie with the attributes the token service sets. *)
Module Cookie.
Record t : Type :=
  { value : string; httpOnly : bool; secure : bool;
    sameSite : string; path : string; maxAge : Z }.
End Cookie.

(** The submitted form: its entries in order; a name may occur many times.
    Only text fields are modelled (the actions cast every entry to string). *)
Module FormData.
Abbreviation t := (list (string * string)).

Definition get (fd : t) (name : string) : option string :=
  snd <$> head (filter (fun e => fst e = name) fd).

Definition getAll (fd : t) (name : string) : list string :=
  snd <$> filter (fun e => fst e = name) fd.
End FormData.

(** What a server action answers: [{ error: string | null }]. *)
Record Response : Type := { error : option string }.

(** ** The world outside the actions *)

(** The calls of the backend client that can answer with an error. *)
Inductive Call : Type :=
| AuthGetUser
| VotesSelect | VotesInsert | VotesDelete
| PollsSelect | PollsInsert | PollsUpdate | PollsDelete.

(** What an action does to the outside, in the order it does it. *)
Inductive Event : Type :=
| EvGetUser
| EvVotesSelect (poll_id user_id : string)
| EvVotesInsert (poll_id user_id : string) (option_index : Z)
| EvVotesDelete (poll_id : string)
| EvPollsSelect (columns id : string)
| EvPollsInsert (user_id question : string) (options : list string)
| EvPollsUpdate (id question : string) (options : list string)
| EvPollsDelete (id : string)
| EvRevalidatePath (path : string).

Record World : Type :=
  { cookies : gmap string Cookie.t;     (* the cookie jar of the request *)
    node_env : string;                  (* process.env.NODE_ENV *)
    entropy : nat -> Z;                 (* the source randomBytes draws from *)
    entropy_pos : nat;
    session : option User.t;            (* who the auth service says we are *)
    polls : list Poll.t;
    votes : list Vote.t;
    fresh_id : nat -> string;           (* the ids the database generates *)
    issued_ids : nat;
    faults : Call -> option string;     (* the calls that fail, and their message *)
    journal : list Event }.

Definition with_cookies (c : gmap string Cookie.t) (w : World) : World :=
  {| cookies := c; node_env := node_env w; entropy := entropy w;
     entropy_pos := entropy_pos w; session := session w; polls := polls w;
     votes := votes w; fresh_id := fresh_id w; issued_ids := issued_ids w;
     faults := faults w; journal := journal w |}.

Definition with_entropy_pos (n : nat) (w : World) : World :=
  {| cookies := cookies w; node_env := node_env w; entropy := entropy w;
     entropy_pos := n; session := session w; polls := polls w;
     votes := votes w; fresh_id := fresh_id w; issued_ids := issued_ids w;
     faults := faults w; journal := journal w |}.

Definition with_polls (p : list Poll.t) (w : World) : World :=
  {| cookies := cookies w; node_env := node_env w; entropy := entropy w;
     entropy_pos := entropy_pos w; session := session w; polls := p;
     votes := votes w; fresh_id := fresh_id w; issued_ids := issued_ids w;
     faults := faults w; journal := journal w |}.

Definition with_issued_ids (n : nat) (w : World) : World :=
  {| cookies := cookies w; node_env := node_env w; entropy := entropy w;
     entropy_pos := entropy_pos w; session := session w; polls := polls w;
     votes := votes w; fresh_id := fresh_id w; issued_ids := n;
     faults := faults w; journal := journal w |}.

Definition with_votes (v : list Vote.t) (w : World) : World :=
  {| cookies := cookies w; node_env := node_env w; entropy := entropy w;
     entropy_pos := entropy_pos w; session := session w; polls := polls w;
     votes := v; fresh_id := fresh_id w; issued_ids := issued_ids w;
     faults := faults w; journal := journal w |}.

Definition with_journal (j : list Event) (w : World) : World :=
  {| cookies := cookies w; node_env := node_env w; entropy := entropy w;
     entropy_pos := entropy_pos w; session := session w; polls := polls w;
     votes := votes w; fresh_id := fresh_id w; issued_ids := issued_ids w;
     faults := faults w; journal := j |}.

(** ** Actions: state passing with early return *)

Inductive Outcome (A : Type) : Type :=
| Returned (r : Response)    (* a [return] statement was reached *)
| Next (a : A).              (* the statement fell through with a value *)
Arguments Returned {A} r.
Arguments Next {A} a.

Definition Action (A : Type) : Type := World -> Outcome A * World.

Definition pure {A} (a : A) : Action A := fun w => (Next a, w).

Definition bind {A B} (m : Action A) (k : A -> Action B) : Action B :=
  fun w => match m w with
           | (Returned r, w') => (Returned r, w')
           | (Next a, w') => k a w'
           end.

(** [return r;] *)
Definition ret {A} (r : Response) : Action A := fun w => (Returned r, w).

Declare Scope action_scope.
Delimit Scope action_scope with action.
Notation "x <- m ;; k" := (bind m (fun x => k))
  (at level 100, m at next level, right associativity) : action_scope.
Notation "m ;; k" := (bind m (fun _ => k))
  (at level 100, right associativity) : action_scope.
Local Open Scope action_scope.

(** [if (c) return r;] *)
Definition return_if (c : bool) (r : Response) : Action unit :=
  if c then ret r else pure tt.

(** [if (error) return { error: error.message };] *)
Definition return_error (e : option string) : Action unit :=
  match e with
  | Some message => ret {| error := Some message |}
  | None => pure tt
  end.

(** [if (!x) return { error: msg };], after which [x] is known to be there. *)
Definition require {A} (x : option A) (msg : string) : Action A :=
  match x with
  | Some a => pure a
  | None => ret {| error := Some msg |}
  end.

(** [for (const x of l) body] *)
Fixpoint for_of {A} (l : list A) (body : A -> Action unit) : Action unit :=
  match l with
  | [] => pure tt
  | x :: rest => body x ;; for_of rest body
  end.

(** The answer of a whole action and the world it leaves. *)
Definition run (m : Action Response) (w : World) : Response * World :=
  match m w with
  | (Returned r, w') => (r, w')
  | (Next r, w') => (r, w')
  end.

Definition emit (e : Event) : Action unit :=
  fun w => (Next tt, with_journal (journal w ++ [e]) w).

(** ** The backend client *)

Module Backend.

(** The message of the client library when [.single()] does not find
    exactly one row, or [.maybeSingle()] finds more than one. *)
Definition not_single : string :=
  "JSON object requested, multiple (or no) rows returned".

(** [.single()] *)
Definition single {A} (rows : list A) : option A * option string :=
  match rows with
  | [r] => (Some r, None)
  | _ => (None, Some not_single)
  end.

(** [.maybeSingle()] *)
Definition maybeSingle {A} (rows : list A) : option A * option string :=
  match rows with
  | [] => (None, None)
  | [r] => (Some r, None)
  | _ => (None, Some not_single)
  end.

(** [supabase.auth.getUser()], as [({data: {user}}, error)]. *)
Definition auth_getUser : Action (option User.t * option string) :=
  emit EvGetUser ;;
  fun w => match faults w AuthGetUser with
           | Some e => (Next (None, Some e), w)
           | None => (Next (session w, None), w)
           end.

(** [from("votes").select("*").eq("poll_id", p).eq("user_id", u).maybeSingle()] *)
Definition votes_select (p u : string) : Action (option Vote.t * option string) :=
  emit (EvVotesSelect p u) ;;
  fun w => match faults w VotesSelect with
           | Some e => (Next (None, Some e), w)
           | None =>
               (Next (maybeSingle
                        (filter (fun v => Vote.poll_id v = p /\ Vote.user_id v = u)
                                (votes w))), w)
           end.

(** [from("votes").insert([row])] *)
Definition votes_insert (row : Vote.t) : Action (option string) :=
  emit (EvVotesInsert (Vote.poll_id row) (Vote.user_id row) (Vote.option_index row)) ;;
  fun w => match faults w VotesInsert with
           | Some e => (Next (Some e), w)
           | None => (Next None, with_votes (votes w ++ [row]) w)
           end.

(** [from("votes").delete().eq("poll_id", p)] *)
Definition votes_delete (p : string) : Action (option string) :=
  emit (EvVotesDelete p) ;;
  fun w => match faults w VotesDelete with
           | Some e => (Next (Some e), w)
           | None =>
               (Next None,
                with_votes (filter (fun v => Vote.poll_id v <> p) (votes w)) w)
           end.

(** [from("polls").select(columns).eq("id", id).single()] *)
Definition polls_select (columns id : string) : Action (option Poll.t * option string) :=
  emit (EvPollsSelect columns id) ;;
  fun w => match faults w PollsSelect with
           | Some e => (Next (None, Some e), w)
           | None => (Next (single (filter (fun p => Poll.id p = id) (polls w))), w)
           end.

(** [from("polls").insert([{user_id, question, options}])]; the database
    supplies the id. *)
Definition polls_insert (user_id question : string) (options : list string)
  : Action (option string) :=
  emit (EvPollsInsert user_id question options) ;;
  fun w => match faults w PollsInsert with
           | Some e => (Next (Some e), w)
           | None =>
               let row := {| Poll.id := fresh_id w (issued_ids w);
                             Poll.user_id := user_id;
                             Poll.question := question;
                             Poll.options := options |} in
               (Next None,
                with_issued_ids (S (issued_ids w)) (with_polls (polls w ++ [row]) w))
           end.

(** [from("polls").update({question, options}).eq("id", id)] *)
Definition polls_update (id question : string) (options : list string)
  : Action (option string) :=
  emit (EvPollsUpdate id question options) ;;
  fun w => match faults w PollsUpdate with
           | Some e => (Next (Some e), w)
           | None =>
               let upd (p : Poll.t) :=
                 if bool_decide (Poll.id p = id)
                 then {| Poll.id := Poll.id p; Poll.user_id := Poll.user_id p;
                         Poll.question := question; Poll.options := options |}
                 else p in
               (Next None, with_polls (upd <$> polls w) w)
           end.

(** [from("polls").delete().eq("id", id)] *)
Definition polls_delete (id : string) : Action (option string) :=
  emit (EvPollsDelete id) ;;
  fun w => match faults w PollsDelete with
           | Some e => (Next (Some e), w)
           | None =>
               (Next None, with_polls (filter (fun p => Poll.id p <> id) (polls w)) w)
           end.

End Backend.

(** [revalidatePath(path)] of the framework's cache. *)
Definition revalidatePath (path : string) : Action unit := emit (EvRevalidatePath path).

(** ** [src/lib/csrf-protection.ts] *)

Module Csrf.

Definition CSRF_COOKIE_NAME : string := "csrf_token".
Definition CSRF_HEADER_NAME : string := "X-CSRF-Token".
Definition CSRF_FORM_FIELD : string := "csrf_token".
Definition TOKEN_EXPIRY : Z := 24 * 60 * 60 * 1000.

(** The byte at position [i] of the entropy source. *)
Definition random_byte (w : World) (i : nat) : Z := Z.land (entropy w i) 0xff.

(** [randomBytes(n)] *)
Definition randomBytes (n : nat) : Action (list Z) :=
  fun w => (Next (random_byte w <$> seq (entropy_pos w) n),
            with_entropy_pos (entropy_pos w + n) w).

Definition generateCSRFToken : Action string :=
  bytes <- randomBytes 32 ;;
  pure (Encoding.hex bytes).

(** [createHash('sha256').update(token).digest('hex')] *)
Definition hashToken (token : string) : string := sha256_hex token.

(** [cookies().get(name)?.value] *)
Definition cookie_value (name : string) : Action (option string) :=
  fun w => (Next (Cookie.value <$> cookies w !! name), w).

(** [cookies().set({name, ...})] *)
Definition cookie_set (name : string) (c : Cookie.t) : Action unit :=
  fun w => (Next tt, with_cookies (<[name := c]> (cookies w)) w).

Definition getenv_NODE_ENV : Action string := fun w => (Next (node_env w), w).

Definition setCSRFToken : Action string :=
  token <- generateCSRFToken ;;
  let hashedToken := hashToken token in
  env <- getenv_NODE_ENV ;;
  cookie_set CSRF_COOKIE_NAME
    {| Cookie.value := hashedToken;
       Cookie.httpOnly := true;
       Cookie.secure := Js.strict_eq env "production";
       Cookie.sameSite := "lax";
       Cookie.path := "/";
       Cookie.maxAge := (TOKEN_EXPIRY / 1000)%Z |} ;;
  pure token.

Definition validateCSRFToken (token : string) : Action bool :=
  storedToken <- cookie_value CSRF_COOKIE_NAME ;;
  if Js.falsy storedToken || negb (Js.truthy token) then pure false
  else
    let hashedToken := hashToken token in
    pure (bool_decide (Some hashedToken = storedToken)).

Definition getCSRFToken : Action string := setCSRFToken.

Definition FIELD_NAME : string := CSRF_FORM_FIELD.
Definition HEADER_NAME : string := CSRF_HEADER_NAME.

End Csrf.

(** ** [src/app/lib/actions/poll-actions.ts] *)

Module PollActions.

Import Backend.

Definition invalid_token : string :=
  "Invalid security token. Please refresh the page and try again.".

(** [(user.app_metadata as any)?.role === 'admin'] *)
Definition has_admin_role (user : User.t) : bool :=
  match User.app_metadata user with
  | Some m => bool_decide (User.role m = Some "admin")
  | None => false
  end.

(** [!csrfToken || !validateCSRFToken(csrfToken)], left to right. *)
Definition token_missing_or_invalid (csrfToken : option string) : Action bool :=
  match csrfToken with
  | Some t => if Js.truthy t then v <- Csrf.validateCSRFToken t ;; pure (negb v)
              else pure true
  | None => pure true
  end.

(** [csrfToken && !validateCSRFToken(csrfToken)], left to right. *)
Definition token_given_and_invalid (csrfToken : option string) : Action bool :=
  match csrfToken with
  | Some t => if Js.truthy t then v <- Csrf.validateCSRFToken t ;; pure (negb v)
              else pure false
  | None => pure false
  end.

(** [if (!question || question.trim() === '') return { error: msg };],
    after which [question] is a string. *)
Definition require_text (question : option string) (msg : string) : Action string :=
  match question with
  | Some q =>
      if negb (Js.truthy q) || Js.strict_eq (Js.trim q) ""
      then ret {| error := Some msg |}
      else pure q
  | None => ret {| error := Some msg |}
  end.

Definition createPoll (formData : FormData.t) : Action Response :=
  let csrfToken := FormData.get formData Csrf.FIELD_NAME in
  bad <- token_missing_or_invalid csrfToken ;;
  return_if bad {| error := Some invalid_token |} ;;
  let question := FormData.get formData "question" in
  let options := List.filter Js.truthy (FormData.getAll formData "options") in
  question <- require_text question "Please provide a valid question." ;;
  return_if (500 <? String.length question)%nat
    {| error := Some "Question is too long. Maximum 500 characters allowed." |} ;;
  return_if (List.length options <? 2)%nat
    {| error := Some "Please provide at least two options." |} ;;
  return_if (10 <? List.length options)%nat
    {| error := Some "Maximum 10 options allowed." |} ;;
  for_of options (fun option =>
    return_if (Js.strict_eq (Js.trim option) "")
      {| error := Some "Empty options are not allowed." |} ;;
    return_if (200 <? String.length option)%nat
      {| error := Some "Option text is too long. Maximum 200 characters allowed." |}) ;;
  let uniqueOptions : gset string := list_to_set (Js.trim <$> options) in
  return_if (negb (size uniqueOptions =? List.length options)%nat)
    {| error := Some "Duplicate options are not allowed." |} ;;
  r <- auth_getUser ;;
  let '(user, userError) := r in
  return_error userError ;;
  user <- require user "You must be logged in to create a poll." ;;
  let sanitizedQuestion := Js.trim question in
  let sanitizedOptions := Js.trim <$> options in
  error <- polls_insert (User.id user) sanitizedQuestion sanitizedOptions ;;
  return_error error ;;
  revalidatePath "/polls" ;;
  pure {| error := None |}.

Definition submitVote (pollId : string) (optionIndex : Z) (csrfToken : option string)
  : Action Response :=
  bad <- token_given_and_invalid csrfToken ;;
  return_if bad {| error := Some invalid_token |} ;;
  r <- auth_getUser ;;
  let '(user, _) := r in
  user <- require user "You must be logged in to vote." ;;
  r <- votes_select pollId (User.id user) ;;
  let '(existingVote, checkError) := r in
  return_error checkError ;;
  return_if (bool_decide (is_Some existingVote))
    {| error := Some "You have already voted on this poll." |} ;;
  r <- polls_select "options" pollId ;;
  let '(poll, pollError) := r in
  return_error pollError ;;
  poll <- require poll "Poll not found." ;;
  return_if ((optionIndex <? 0)%Z
             || (optionIndex >=? Z.of_nat (List.length (Poll.options poll)))%Z)
    {| error := Some "Invalid option selected." |} ;;
  error <- votes_insert {| Vote.poll_id := pollId;
                           Vote.user_id := User.id user;
                           Vote.option_index := optionIndex |} ;;
  return_error error ;;
  pure {| error := None |}.

Definition deletePoll (id : string) : Action Response :=
  r <- auth_getUser ;;
  let '(user, userError) := r in
  return_error userError ;;
  user <- require user "You must be logged in to delete a poll." ;;
  let isAdmin := has_admin_role user in
  (if negb isAdmin then
     r <- polls_select "user_id" id ;;
     let '(poll, pollError) := r in
     return_error pollError ;;
     poll <- require poll "Poll not found." ;;
     return_if (negb (Js.strict_eq (Poll.user_id poll) (User.id user)))
       {| error := Some "You don't have permission to delete this poll." |}
   else pure tt) ;;
  votesError <- votes_delete id ;;
  return_error votesError ;;
  error <- polls_delete id ;;
  return_error error ;;
  revalidatePath "/polls" ;;
  pure {| error := None |}.

Definition updatePoll (pollId : string) (formData : FormData.t) : Action Response :=
  let csrfToken := FormData.get formData Csrf.FIELD_NAME in
  bad <- token_missing_or_invalid csrfToken ;;
  return_if bad {| error := Some invalid_token |} ;;
  let question := FormData.get formData "question" in
  let options := List.filter Js.truthy (FormData.getAll formData "options") in
  question <- require_text question "Please provide a valid question." ;;
  return_if (500 <? String.length question)%nat
    {| error := Some "Question is too long. Maximum 500 characters allowed." |} ;;
  return_if (List.length options <? 2)%nat
    {| error := Some "Please provide at least two options." |} ;;
  return_if (10 <? List.length options)%nat
    {| error := Some "Maximum 10 options allowed." |} ;;
  for_of options (fun option =>
    return_if (Js.strict_eq (Js.trim option) "")
      {| error := Some "Empty options are not allowed." |} ;;
    return_if (200 <? String.length option)%nat
      {| error := Some "Option text is too long. Maximum 200 characters allowed." |}) ;;
  let uniqueOptions : gset string := list_to_set (Js.trim <$> options) in
  return_if (negb (size uniqueOptions =? List.length options)%nat)
    {| error := Some "Duplicate options are not allowed." |} ;;
  r <- auth_getUser ;;
  let '(user, userError) := r in
  return_error userError ;;
  user <- require user "You must be logged in to update a poll." ;;
  let isAdmin := has_admin_role user in
  r <- polls_select "user_id" pollId ;;
  let '(poll, pollError) := r in
  return_error pollError ;;
  poll <- require poll "Poll not found." ;;
  return_if (negb isAdmin && negb (Js.strict_eq (Poll.user_id poll) (User.id user)))
    {| error := Some "You don't have permission to update this poll." |} ;;
  let sanitizedQuestion := Js.trim question in
  let sanitizedOptions := Js.trim <$> options in
  error <- polls_update pollId sanitizedQuestion sanitizedOptions ;;
  return_error error ;;
  revalidatePath "/polls" ;;
  pure {| error := None |}.

End PollActions.

(** ** The read actions of [src/app/lib/actions/poll-actions.ts] *)

(** [{ poll, error }] *)
Module PollResult.
Record t : Type := { poll : option Poll.t; error : option string }.
End PollResult.

(** [{ polls, error }] *)
Module PollsResult.
Record t : Type := { polls : list Poll.t; error : option string }.
End PollsResult.

Module PollQueries.

Import Backend.

Definition getPollById (id : string) : Action PollResult.t :=
  r <- polls_select "*" id ;;
  let '(data, error) := r in
  match error with
  | Some message => pure {| PollResult.poll := None; PollResult.error := Some message |}
  | None => pure {| PollResult.poll := data; PollResult.error := None |}
  end.

Section ByUser.

(** The [created_at] column, which the rows of the model do not carry. *)
Variable created_at : Poll.t -> Z.

(** [.order("created_at", { ascending: false })]: the newest row first.
    Rows of the same age come in an order the database does not promise;
    here the one of the table. *)
Fixpoint insert_by_age (p : Poll.t) (l : list Poll.t) : list Poll.t :=
  match l with
  | [] => [p]
  | q :: rest =>
      if (created_at q <=? created_at p)%Z then p :: l
      else q :: insert_by_age p rest
  end.

Definition newest_first (l : list Poll.t) : list Poll.t := foldr insert_by_age [] l.

(** [from("polls").select("*").eq("user_id", u).order("created_at", ...)];
    the journal keeps the columns and the value the rows are compared with. *)
Definition polls_select_by_user (u : string)
  : Action (option (list Poll.t) * option string) :=
  emit (EvPollsSelect "*" u) ;;
  fun w => match faults w PollsSelect with
           | Some e => (Next (None, Some e), w)
           | None =>
               (Next (Some (newest_first (filter (fun p => Poll.user_id p = u) (polls w))),
                      None), w)
           end.

Definition getUserPolls : Action PollsResult.t :=
  r <- auth_getUser ;;
  let '(user, _) := r in
  match user with
  | None => pure {| PollsResult.polls := []; PollsResult.error := Some "Not authenticated" |}
  | Some user =>
      r <- polls_select_by_user (User.id user) ;;
      let '(data, error) := r in
      match error with
      | Some message =>
          pure {| PollsResult.polls := []; PollsResult.error := Some message |}
      | None =>
          pure {| PollsResult.polls := default [] data; PollsResult.error := None |}
      end
  end.

End ByUser.

End PollQueries.

(** ** Requests, as the middleware sees them *)

Module Http.

(** [request.nextUrl]: the path and the query string. *)
Record Url : Type := { pathname : string; search : string }.

(** The byte-lowercase form of a header name. *)
Definition lower_ascii (c : ascii) : ascii :=
  let n := nat_of_ascii c in
  if (65 <=? n)%nat && (n <=? 90)%nat then ascii_of_nat (n + 32) else c.

Fixpoint lowercase (s : string) : string :=
  match s with
  | EmptyString => EmptyString
  | String c r => String (lower_ascii c) (lowercase r)
  end.

(** A header list: the entries in order, under their lowercase names. *)
Abbreviation Headers := (list (string * string)).

Fixpoint join (sep : string) (l : list string) : string :=
  match l with
  | [] => EmptyString
  | [x] => x
  | x :: rest => x +:+ sep +:+ join sep rest
  end.

(** [headers.get(name)]: the values under the name, whatever its case,
    joined by a comma and a space; [null] when there is none. *)
Definition headers_get (h : Headers) (name : string) : option string :=
  match filter (fun e => lowercase (fst e) = lowercase name) h with
  | [] => None
  | found => Some (join ", " (snd <$> found))
  end.

Record Request : Type :=
  { method : string; nextUrl : Url; headers : Headers }.

(** The upper case of the letters a to z. No other Latin-1 character has
    an upper case among the letters A to Z, so this decides whether the
    upper case of a string is one of the words GET, HEAD and OPTIONS, for
    [toUpperCase] as for a regular expression with the flag [i]. *)
Definition upper_ascii (c : ascii) : ascii :=
  let n := nat_of_ascii c in
  if (97 <=? n)%nat && (n <=? 122)%nat then ascii_of_nat (n - 32) else c.

Fixpoint uppercase (s : string) : string :=
  match s with
  | EmptyString => EmptyString
  | String c r => String (upper_ascii c) (uppercase r)
  end.

(** [s.startsWith(p)] *)
Definition startsWith (s p : string) : bool := String.prefix p s.

End Http.

(** ** [csrfProtection] of [src/lib/csrf-protection.ts] *)

Module CsrfGuard.

(** [/^(GET|HEAD|OPTIONS)$/i.test(method)] *)
Definition safe_method_pattern (method : string) : bool :=
  bool_decide (Http.uppercase method ∈ ["GET"; "HEAD"; "OPTIONS"]).

Definition csrfProtection (request : Http.Request) : Action bool :=
  let safeMethod := safe_method_pattern (Http.method request) in
  if safeMethod then pure true
  else
    let token := Http.headers_get (Http.headers request) Csrf.CSRF_HEADER_NAME in
    match token with
    | Some t => if Js.truthy t then Csrf.validateCSRFToken t else pure false
    | None => pure false
    end.

End CsrfGuard.

(** ** The token route: [GET /api/csrf] *)

Module CsrfRoute.

(** The body [{ csrfToken }] of the answer. *)
Record Body : Type := { csrfToken : string }.

Definition GET : Action Body :=
  token <- Csrf.getCSRFToken ;;
  pure {| csrfToken := token |}.

End CsrfRoute.

(** ** The middleware of the application *)

Module Middleware.

(** What the middleware answers: the response of [updateSession], a
    redirect, or a response of its own. *)
Inductive Answer (R : Type) : Type :=
| Through (res : R)
| Redirect (url : Http.Url)
| Refused (status : Z) (content_type body : string).
Arguments Through {R} res.
Arguments Redirect {R} url.
Arguments Refused {R} status content_type body.

(** [JSON.stringify({ error: 'Invalid CSRF token' })] *)
Definition invalid_csrf_body : string :=
  let q := String (ascii_of_nat 34) EmptyString in
  "{" +:+ q +:+ "error" +:+ q +:+ ":" +:+ q +:+ "Invalid CSRF token" +:+ q +:+ "}".

Definition isAdmin (request : Http.Request) : Action bool :=
  r <- Backend.auth_getUser ;;
  let '(user, _) := r in
  pure (match user with
        | Some u => PollActions.has_admin_role u
        | None => false
        end).

Section WithSession.

(** [updateSession] of [@/lib/supabase/middleware], taken as it comes. *)
Variable R : Type.
Variable updateSession : Http.Request -> World -> R * World.

Definition middleware (request : Http.Request) : Action (Answer R) :=
  res <- (fun w => let (res, w') := updateSession request w in (Next res, w')) ;;
  let path := Http.pathname (Http.nextUrl request) in
  admin <- (if Http.startsWith path "/admin" then isAdmin request else pure true) ;;
  if negb admin then
    pure (Redirect {| Http.pathname := "/";
                      Http.search := Http.search (Http.nextUrl request) |})
  else
    let skipCSRFCheck :=
      existsb (fun p => Http.startsWith path p) ["/api/auth"; "/_next"; "/favicon.ico"] in
    if negb skipCSRFCheck
       && negb (bool_decide (Http.method request ∈ ["GET"; "HEAD"; "OPTIONS"]))
    then
      ok <- CsrfGuard.csrfProtection request ;;
      if negb ok then pure (Refused 403 "application/json" invalid_csrf_body)
      else pure (Through res)
    else pure (Through res).

End WithSession.

End Middleware.

(** ** The fetch wrapper of the client: [csrfFetch] *)

Module CsrfFetch.

(** The options of a request: [RequestInit] with [skipCSRF]. *)
Record Options : Type :=
  { skipCSRF : option bool; method : option string;
    headers : option Http.Headers; body : option string }.

(** What awaiting a promise gives: a value, or the error it threw. *)
Inductive Settled (A : Type) : Type :=
| Fulfilled (a : A)
| Rejected (reason : string).
Arguments Fulfilled {A} a.
Arguments Rejected {A} reason.

(** A response, as far as the wrapper looks at it: [ok], and what
    awaiting [json()] gives, of which the wrapper reads the field
    [csrfToken]. *)
Record FetchResponse : Type := { ok : bool; json_csrfToken : Settled string }.

(** [new Headers(init)]: the entries, under their lowercase names. *)
Definition new_Headers (init : Http.Headers) : Http.Headers :=
  (fun e => (Http.lowercase (fst e), snd e)) <$> init.

(** [headers.set(name, value)]: the first entry under the name takes the
    value and the others go; without such an entry, one is added. Names
    and values are taken to be ones [Headers] accepts as they are. *)
Fixpoint headers_set_first (name value : string) (h : Http.Headers) : Http.Headers :=
  match h with
  | [] => []
  | e :: rest =>
      if bool_decide (Http.lowercase (fst e) = name)
      then (name, value) :: filter (fun e' => Http.lowercase (fst e') <> name) rest
      else e :: headers_set_first name value rest
  end.

Definition headers_set (h : Http.Headers) (name value : string) : Http.Headers :=
  let n := Http.lowercase name in
  if bool_decide (Exists (fun e => Http.lowercase (fst e) = n) h)
  then headers_set_first n value h
  else h ++ [(n, value)].

Section WithFetch.

(** [fetch], taken as it comes: the world it leaves and what it settles to. *)
Variable fetch : string -> option Options -> World -> Settled FetchResponse * World.

(** The [getCSRFToken] of the client. What it catches it throws again;
    the line it writes to the console in between is left out. *)
Definition getCSRFToken (w : World) : Settled string * World :=
  match fetch "/api/csrf" None w with
  | (Fulfilled response, w') =>
      if negb (ok response) then (Rejected "Failed to fetch CSRF token", w')
      else
        match json_csrfToken response with
        | Fulfilled csrfToken => (Fulfilled csrfToken, w')
        | Rejected reason => (Rejected reason, w')
        end
  | (Rejected reason, w') => (Rejected reason, w')
  end.

Definition csrfFetch (url : string) (options : Options) (w : World)
  : Settled FetchResponse * World :=
  let skip :=
    default false (skipCSRF options)
    || Js.falsy (method options)
    || bool_decide (Http.uppercase (default "" (method options))
                    ∈ ["GET"; "HEAD"; "OPTIONS"]) in
  if skip then fetch url (Some options) w
  else
    match getCSRFToken w with
    | (Rejected reason, w') => (Rejected reason, w')
    | (Fulfilled csrfToken, w') =>
        let headers := new_Headers (default [] (headers options)) in
        let headers := headers_set headers Csrf.HEADER_NAME csrfToken in
        fetch url (Some {| skipCSRF := skipCSRF options; method := method options;
                           headers := Some headers; body := body options |}) w'
    end.

End WithFetch.

End CsrfFetch.

(** ** The option fields of [PollCreateForm] *)

Module PollCreateForm.

(** [useState(["", ""])] *)
Definition initial : list string := [""; ""].

(** [opts.map((opt, i) => (i === idx ? value : opt))] *)
Definition handleOptionChange (idx : nat) (value : string) (opts : list string)
  : list string :=
  imap (fun i opt => if bool_decide (i = idx) then value else opt) opts.

(** [[...opts, ""]] *)
Definition addOption (opts : list string) : list string := opts ++ [""].

(** [opts.filter((_, i) => i !== idx)] *)
Fixpoint without_index (idx : nat) (opts : list string) : list string :=
  match opts, idx with
  | [], _ => []
  | _ :: rest, O => rest
  | o :: rest, S i => o :: without_index i rest
  end.

(** [removeOption] tests the length of the options it was rendered with
    and updates the options of the moment. *)
Definition removeOption (rendered : list string) (idx : nat) (opts : list string)
  : list string :=
  if (2 <? length rendered)%nat then without_index idx opts else opts.

(** What the user does to the option fields. The component is rendered
    anew after each such event, so its handlers are those of the options
    they update. *)
Inductive Event : Type :=
| Change (idx : nat) (value : string)
| Add
| Remove (idx : nat).

Definition handle (opts : list string) (e : Event) : list string :=
  match e with
  | Change idx value => handleOptionChange idx value opts
  | Add => addOption opts
  | Remove idx => removeOption opts idx opts
  end.

(** The entries of the submitted form: the question field, then one
    [options] entry per option field. *)
Definition formData (question : string) (opts : list string) : FormData.t :=
  ("question", question) :: ((fun o => ("options", o)) <$> opts).

(** The [action] of the form: what [createPoll] answers is what it shows. *)
Definition submit (question : string) (opts : list string) : Action Response :=
  PollActions.createPoll (formData question opts).

End PollCreateForm.

(** * Vocabulary of the properties *)

(** What [validateCSRFToken] decides, as a function of the cookie jar. *)
Definition valid_in (jar : gmap string Cookie.t) (token : string) : bool :=
  match jar !! Csrf.CSRF_COOKIE_NAME with
  | Some c => Js.truthy (Cookie.value c) && Js.truthy token
              && bool_decide (Csrf.hashToken token = Cookie.value c)
  | None => false
  end.

(** The messages of the input rules. *)
Definition msg_question : string := "Please provide a valid question.".
Definition msg_question_long : string :=
  "Question is too long. Maximum 500 characters allowed.".
Definition msg_few : string := "Please provide at least two options.".
Definition msg_many : string := "Maximum 10 options allowed.".
Definition msg_empty_option : string := "Empty options are not allowed.".
Definition msg_option_long : string :=
  "Option text is too long. Maximum 200 characters allowed.".
Definition msg_duplicate : string := "Duplicate options are not allowed.".

(** The fields of a poll form as the two actions read them: [question],
    and the [options] entries that are not the empty string. *)
Definition question_of (fd : FormData.t) : option string := FormData.get fd "question".
Definition options_of (fd : FormData.t) : list string :=
  List.filter Js.truthy (FormData.getAll fd "options").

(** The submitted token is there and validates against the jar. *)
Definition token_accepted (fd : FormData.t) (w : World) : bool :=
  match FormData.get fd Csrf.FIELD_NAME with
  | Some t => valid_in (cookies w) t
  | None => false
  end.

(** The verdict on one option: blank after trimming, else too long. *)
Definition option_error (o : string) : option string :=
  if bool_decide (Js.trim o = "") then Some msg_empty_option
  else if (200 <? String.length o)%nat then Some msg_option_long
  else None.

(** The verdict of the first option, in submission order, that has one. *)
Fixpoint first_option_error (opts : list string) : option string :=
  match opts with
  | [] => None
  | o :: rest =>
      match option_error o with
      | Some e => Some e
      | None => first_option_error rest
      end
  end.

(** The input rules in the order they decide the answer. *)
Definition first_violation (question : option string) (opts : list string)
  : option string :=
  match question with
  | None => Some msg_question
  | Some q =>
      if bool_decide (q = "" \/ Js.trim q = "") then Some msg_question
      else if (500 <? String.length q)%nat then Some msg_question_long
      else if (List.length opts <? 2)%nat then Some msg_few
      else if (10 <? List.length opts)%nat then Some msg_many
      else match first_option_error opts with
           | Some e => Some e
           | None =>
               if bool_decide (NoDup (Js.trim <$> opts)) then None
               else Some msg_duplicate
           end
  end.

(** The first half of [createPoll] and of [updatePoll], which the two
    actions spell out word for word: the token check and the input rules.
    [k] stands for the half that differs. *)
Definition gate (formData : FormData.t)
  (k : string -> list string -> Action Response) : Action Response :=
  let csrfToken := FormData.get formData Csrf.FIELD_NAME in
  bad <- PollActions.token_missing_or_invalid csrfToken ;;
  return_if bad {| error := Some PollActions.invalid_token |} ;;
  let question := FormData.get formData "question" in
  let options := List.filter Js.truthy (FormData.getAll formData "options") in
  question <- PollActions.require_text question "Please provide a valid question." ;;
  return_if (500 <? String.length question)%nat
    {| error := Some "Question is too long. Maximum 500 characters allowed." |} ;;
  return_if (List.length options <? 2)%nat
    {| error := Some "Please provide at least two options." |} ;;
  return_if (10 <? List.length options)%nat
    {| error := Some "Maximum 10 options allowed." |} ;;
  for_of options (fun option =>
    return_if (Js.strict_eq (Js.trim option) "")
      {| error := Some "Empty options are not allowed." |} ;;
    return_if (200 <? String.length option)%nat
      {| error := Some "Option text is too long. Maximum 200 characters allowed." |}) ;;
  let uniqueOptions : gset string := list_to_set (Js.trim <$> options) in
  return_if (negb (size uniqueOptions =? List.length options)%nat)
    {| error := Some "Duplicate options are not allowed." |} ;;
  k question options.

(** The second half of [createPoll]. *)
Definition create_tail (question : string) (options : list string) : Action Response :=
  r <- Backend.auth_getUser ;;
  let '(user, userError) := r in
  return_error userError ;;
  user <- require user "You must be logged in to create a poll." ;;
  error <- Backend.polls_insert (User.id user) (Js.trim question) (Js.trim <$> options) ;;
  return_error error ;;
  revalidatePath "/polls" ;;
  pure {| error := None |}.

(** The second half of [updatePoll]. *)
Definition update_tail (pollId question : string) (options : list string)
  : Action Response :=
  r <- Backend.auth_getUser ;;
  let '(user, userError) := r in
  return_error userError ;;
  user <- require user "You must be logged in to update a poll." ;;
  r <- Backend.polls_select "user_id" pollId ;;
  let '(poll, pollError) := r in
  return_error pollError ;;
  poll <- require poll "Poll not found." ;;
  return_if (negb (PollActions.has_admin_role user)
             && negb (Js.strict_eq (Poll.user_id poll) (User.id user)))
    {| error := Some "You don't have permission to update this poll." |} ;;
  error <- Backend.polls_update pollId (Js.trim question) (Js.trim <$> options) ;;
  return_error error ;;
  revalidatePath "/polls" ;;
  pure {| error := None |}.

Definition msg_delete_denied : string := "You don't have permission to delete this poll.".
Definition msg_update_denied : string := "You don't have permission to update this poll.".
Definition msg_already_voted : string := "You have already voted on this poll.".
Definition msg_invalid_option : string := "Invalid option selected.".

(** The row [createPoll] asks the database to add. *)
Definition new_poll (w : World) (u : User.t) (q : string) (opts : list string) : Poll.t :=
  {| Poll.id := fresh_id w (issued_ids w); Poll.user_id := User.id u;
     Poll.question := Js.trim q; Poll.options := Js.trim <$> opts |}.

(** What [updatePoll] makes of a row of the table. *)
Definition edited (pollId q : string) (opts : list string) (x : Poll.t) : Poll.t :=
  if bool_decide (Poll.id x = pollId)
  then {| Poll.id := Poll.id x; Poll.user_id := Poll.user_id x;
          Poll.question := Js.trim q; Poll.options := Js.trim <$> opts |}
  else x.

(** The tables and the jar are as they were. *)
Definition untouched (w w' : World) : Prop :=
  polls w' = polls w /\ votes w' = votes w /\ cookies w' = cookies w.

(** The request was turned down: an error is answered and nothing changed. *)
Definition rejected (w : World) (r : Response * World) : Prop :=
  error (fst r) <> None /\ untouched w (snd r).

(** The events an action added to the journal. *)
Definition events_since (w : World) (r : Response * World) : list Event :=
  drop (length (journal w)) (journal (snd r)).

(** No call of the backend fails. *)
Definition reliable (w : World) : Prop := forall c, faults w c = None.

(** The invariant of the [votes] table: no two rows for the same poll and
    the same identity. *)
Definition vote_key (v : Vote.t) : string * string := (Vote.poll_id v, Vote.user_id v).
Definition one_vote_each (vs : list Vote.t) : Prop := NoDup (vote_key <$> vs).

(** The rows of one identity on one poll, as [submitVote] asks for them. *)
Definition votes_of (pollId userId : string) (vs : list Vote.t) : list Vote.t :=
  filter (fun v => Vote.poll_id v = pollId /\ Vote.user_id v = userId) vs.

(** [submitVote] lets the token pass: none given (or the empty string), or
    one that validates. *)
Definition vote_token_passes (csrfToken : option string) (w : World) : bool :=
  match csrfToken with
  | Some t => negb (Js.truthy t) || valid_in (cookies w) t
  | None => true
  end.

(** A question and an option that break no rule. *)
Definition valid_question (q : string) : Prop :=
  Js.trim q <> "" /\ String.length q <= 500.
Definition valid_option (o : string) : Prop :=
  Js.trim o <> "" /\ String.length o <= 200.

(** [s.repeat(n)] *)
Fixpoint repeat_string (s : string) (n : nat) : string :=
  match n with
  | O => EmptyString
  | S n' => (s +:+ repeat_string s n')
  end.

(** The rule order as the specification words it: every rule on the
    options looks at the whole list, an empty option anywhere coming
    before an option that is too long anywhere. *)
Definition stated_violation (question : option string) (opts : list string)
  : option string :=
  match question with
  | None => Some msg_question
  | Some q =>
      if bool_decide (q = "" \/ Js.trim q = "") then Some msg_question
      else if (500 <? String.length q)%nat then Some msg_question_long
      else if (List.length opts <? 2)%nat then Some msg_few
      else if (10 <? List.length opts)%nat then Some msg_many
      else if existsb (fun o => bool_decide (Js.trim o = "")) opts
           then Some msg_empty_option
      else if existsb (fun o => (200 <? String.length o)%nat) opts
           then Some msg_option_long
      else if bool_decide (NoDup (Js.trim <$> opts)) then None
      else Some msg_duplicate
  end.

(** The form without its [options] entries that are the empty string. *)
Definition without_empty_options (fd : FormData.t) : FormData.t :=
  filter (fun e => ~ (fst e = "options" /\ snd e = "")) fd.

(** ** Sample worlds and forms *)

(** A world to evaluate the actions in: one signed-in user, two polls,
    one vote, an empty cookie jar and a backend that answers every call. *)
Definition alice : User.t :=
  {| User.id := "alice"; User.email := "alice@example.org"; User.app_metadata := None |}.
Definition bob : User.t :=
  {| User.id := "bob"; User.email := "bob@example.org";
     User.app_metadata := Some {| User.role := Some "user" |} |}.
Definition root : User.t :=
  {| User.id := "root"; User.email := "root@example.org";
     User.app_metadata := Some {| User.role := Some "admin" |} |}.

Definition lunch : Poll.t :=
  {| Poll.id := "p1"; Poll.user_id := "alice";
     Poll.question := "Lunch?"; Poll.options := ["soup"; "salad"; "bread"] |}.
Definition colour : Poll.t :=
  {| Poll.id := "p2"; Poll.user_id := "bob";
     Poll.question := "Colour?"; Poll.options := ["red"; "blue"] |}.

Definition sample_world (who : option User.t) : World :=
  {| cookies := ∅;
     node_env := "production";
     entropy := fun n => Z.of_nat ((7 * n + 3) mod 256);
     entropy_pos := 0;
     session := who;
     polls := [lunch; colour];
     votes := [{| Vote.poll_id := "p2"; Vote.user_id := "alice"; Vote.option_index := 1 |}];
     fresh_id := fun n => String (ascii_of_nat (48 + n)) "";
     issued_ids := 3;
     faults := fun _ => None;
     journal := [] |}.

(** The secret of the first issuance in a sample world, and the world after it. *)
Definition first_secret : string :=
  "030a11181f262d343b424950575e656c737a81888f969da4abb2b9c0c7ced5dc".
Definition issued_world (who : option User.t) : World :=
  snd (Csrf.setCSRFToken (sample_world who)).

(** A form that passes the gate in a world where [first_secret] was issued. *)
Definition good_form : FormData.t :=
  [ ("csrf_token", first_secret); ("question", " Tea or coffee? ");
    ("options", " tea"); ("options", ""); ("options", "coffee ") ].

(** A form whose first option is too long and whose second is blank. *)
Definition long_then_blank_form : FormData.t :=
  [ ("csrf_token", first_secret); ("question", "Which one?");
    ("options", repeat_string "x" 201); ("options", " ") ].

(** A form with a question of 501 characters that trims to 499, and one
    with an option of 201 characters that trims to 200. *)
Definition padded_question_form : FormData.t :=
  [ ("csrf_token", first_secret);
    ("question", repeat_string "q" 499 +:+ "  ");
    ("options", "yes"); ("options", "no") ].
Definition padded_option_form : FormData.t :=
  [ ("csrf_token", first_secret); ("question", "Which one?");
    ("options", repeat_string "y" 200 +:+ " "); ("options", "no") ].

(** A backend whose deletion of votes fails. *)
Definition votes_locked (w : World) : World :=
  {| cookies := cookies w; node_env := node_env w; entropy := entropy w;
     entropy_pos := entropy_pos w; session := session w; polls := polls w;
     votes := votes w; fresh_id := fresh_id w; issued_ids := issued_ids w;
     faults := fun c => match c with VotesDelete => Some "votes are locked" | _ => None end;
     journal := journal w |}.

(** ** Tactics to run the actions *)

Ltac unfold_actions :=
  unfold run, create_tail, update_tail,
    PollActions.deletePoll, PollActions.submitVote,
    Backend.auth_getUser, Backend.votes_select, Backend.votes_insert,
    Backend.votes_delete, Backend.polls_select, Backend.polls_insert,
    Backend.polls_update, Backend.polls_delete,
    revalidatePath, emit, bind, return_error, return_if, require, pure, ret,
    Backend.single, Backend.maybeSingle, Js.strict_eq.

(** An event is not in a list that spells out other events. *)
Ltac absurd_event :=
  exfalso; cbn [app] in *;
  repeat match goal with
         | H : _ ∈ _ :: _ |- _ => apply elem_of_cons in H as [H|H]; [discriminate H|]
         | H : _ ∈ [] |- _ => apply elem_of_nil in H; exact H
         end.

Ltac reduce_world :=
  cbn [fst snd negb andb orb cookies node_env entropy entropy_pos session polls
       votes fresh_id issued_ids faults journal with_cookies with_journal
       with_polls with_votes with_issued_ids with_entropy_pos error].

(** Split on whatever an action is waiting for, innermost first. *)
Ltac case_split :=
  repeat (reduce_world;
          match goal with
          | |- context [match ?x with _ => _ end] =>
              lazymatch x with
              | context [match _ with _ => _ end] => fail
              | _ => destruct x eqn:?
              end
          end);
  reduce_world.

(** ** Vocabulary of the further properties *)

(** The same world with another identity signed in, or none. *)
Definition with_session (who : option User.t) (w : World) : World :=
  {| cookies := cookies w; node_env := node_env w; entropy := entropy w;
     entropy_pos := entropy_pos w; session := who; polls := polls w;
     votes := votes w; fresh_id := fresh_id w; issued_ids := issued_ids w;
     faults := faults w; journal := journal w |}.

(** A poll as the data model wants it: a question that is not empty, is
    trimmed and has at most 500 characters; two to ten options, none
    empty, all trimmed, of at most 200 characters, no two equal. *)
Definition tidy (limit : nat) (s : string) : Prop :=
  s <> "" /\ Js.trim s = s /\ String.length s <= limit.
Definition well_formed (p : Poll.t) : Prop :=
  tidy 500 (Poll.question p)
  /\ 2 <= length (Poll.options p) <= 10
  /\ Forall (tidy 200) (Poll.options p)
  /\ NoDup (Poll.options p).

(** A string that does not begin with white space. *)
Definition starts_clean (s : string) : Prop :=
  match s with
  | EmptyString => True
  | String c _ => Js.is_whitespace c = false
  end.

(** Every vote is for a poll of the table. *)
Definition votes_refer_to_polls (w : World) : Prop :=
  Forall (fun v => Exists (fun p => Poll.id p = Vote.poll_id v) (polls w)) (votes w).

(** The four actions that write, with their arguments. *)
Inductive Mutation : Type :=
| CreatePoll (formData : FormData.t)
| UpdatePoll (pollId : string) (formData : FormData.t)
| DeletePoll (id : string)
| SubmitVote (pollId : string) (optionIndex : Z) (csrfToken : option string).

Definition perform (m : Mutation) : World -> Response * World :=
  match m with
  | CreatePoll fd => run (PollActions.createPoll fd)
  | UpdatePoll pollId fd => run (PollActions.updatePoll pollId fd)
  | DeletePoll id => run (PollActions.deletePoll id)
  | SubmitVote pollId optionIndex tok => run (PollActions.submitVote pollId optionIndex tok)
  end.

(** The rows a deletion of the poll [id] leaves. *)
Definition polls_but (id : string) (ps : list Poll.t) : list Poll.t :=
  filter (fun x => Poll.id x <> id) ps.
Definition votes_but (id : string) (vs : list Vote.t) : list Vote.t :=
  filter (fun v => Vote.poll_id v <> id) vs.

(** A list of polls is newest first under the column [created_at]. *)
Definition newest_to_oldest (created_at : Poll.t -> Z) (l : list Poll.t) : Prop :=
  forall i j a b, i < j -> l !! i = Some a -> l !! j = Some b ->
                  (created_at b <= created_at a)%Z.

(** Whom [isAdmin] of the middleware takes for an admin. *)
Definition identity_is_admin (w : World) : bool :=
  match faults w AuthGetUser with
  | Some _ => false
  | None =>
      match session w with
      | Some u => PollActions.has_admin_role u
      | None => false
      end
  end.

(** The request carries a token, under the header of the token service,
    that validates against the jar. *)
Definition header_token_valid (request : Http.Request) (w : World) : Prop :=
  exists t, Http.headers_get (Http.headers request) Csrf.CSRF_HEADER_NAME = Some t
            /\ valid_in (cookies w) t = true.

(** The paths the middleware lets through without a token. *)
Definition csrf_exempt (path : string) : bool :=
  Http.startsWith path "/api/auth" || Http.startsWith path "/_next"
  || Http.startsWith path "/favicon.ico".

(** A method written GET, HEAD or OPTIONS, in whatever case. *)
Definition safe_method (method : string) : Prop :=
  Http.uppercase method ∈ ["GET"; "HEAD"; "OPTIONS"].

(** A character of a hexadecimal string in lower case. *)
Definition is_lower_hex (c : ascii) : bool :=
  let n := nat_of_ascii c in
  ((48 <=? n)%nat && (n <=? 57)%nat) || ((97 <=? n)%nat && (n <=? 102)%nat).

(** ** Further sample data *)

(** The network of the sample world: the token route answers, every
    other address answers with an empty success. *)
Definition sample_fetch (url : string) (options : option CsrfFetch.Options) (w : World)
  : CsrfFetch.Settled CsrfFetch.FetchResponse * World :=
  if bool_decide (url = "/api/csrf") then
    match CsrfRoute.GET w with
    | (Next body, w') =>
        (CsrfFetch.Fulfilled
           {| CsrfFetch.ok := true;
              CsrfFetch.json_csrfToken := CsrfFetch.Fulfilled (CsrfRoute.csrfToken body) |},
         w')
    | (Returned _, w') => (CsrfFetch.Rejected "Failed to fetch", w')
    end
  else (CsrfFetch.Fulfilled
          {| CsrfFetch.ok := true;
             CsrfFetch.json_csrfToken := CsrfFetch.Rejected "Unexpected end of JSON input" |},
        w).

(** Each poll of the list is at least as new as all that follow it. *)
Fixpoint descending (created_at : Poll.t -> Z) (l : list Poll.t) : Prop :=
  match l with
  | [] => True
  | a :: rest =>
      Forall (fun b => (created_at b <= created_at a)%Z) rest
      /\ descending created_at rest
  end.

(** Every character of the string passes the test. *)
Fixpoint all_chars (f : ascii -> bool) (s : string) : bool :=
  match s with
  | EmptyString => true
  | String c r => f c && all_chars f r
  end.

(** The bytes an issuance in this world draws. *)
Definition next_draw (w : World) : list Z :=
  Csrf.random_byte w <$> seq (entropy_pos w) 32.

(** The same request, its header names written in lower case. *)
Definition with_lowercase_names (request : Http.Request) : Http.Request :=
  {| Http.method := Http.method request;
     Http.nextUrl := Http.nextUrl request;
     Http.headers := (fun e => (Http.lowercase (fst e), snd e)) <$> Http.headers request |}.

(** [header_token_valid], decided. *)
Definition header_token_ok (request : Http.Request) (w : World) : bool :=
  match Http.headers_get (Http.headers request) Csrf.CSRF_HEADER_NAME with
  | Some t => valid_in (cookies w) t
  | None => false
  end.

(** The request is one the middleware would refuse for want of a token. *)
Definition untokened_write (request : Http.Request) (w : World) : bool :=
  negb (csrf_exempt (Http.pathname (Http.nextUrl request)))
  && negb (CsrfGuard.safe_method_pattern (Http.method request))
  && negb (header_token_ok request w).

(** The wrapper asks for a token for this request: [skipCSRF] is not set,
    there is a method, and it is not GET, HEAD or OPTIONS in any case. *)
Definition needs_token (options : CsrfFetch.Options) : bool :=
  negb (default false (CsrfFetch.skipCSRF options)
        || Js.falsy (CsrfFetch.method options)
        || bool_decide (Http.uppercase (default "" (CsrfFetch.method options))
                        ∈ ["GET"; "HEAD"; "OPTIONS"])).

(** The options of a request with other headers. *)
Definition with_headers (hs : Http.Headers) (options : CsrfFetch.Options)
  : CsrfFetch.Options :=
  {| CsrfFetch.skipCSRF := CsrfFetch.skipCSRF options;
     CsrfFetch.method := CsrfFetch.method options;
     CsrfFetch.headers := Some hs;
     CsrfFetch.body := CsrfFetch.body options |}.

(** A request to delete something, with headers of its own. *)
Definition delete_request : CsrfFetch.Options :=
  {| CsrfFetch.skipCSRF := None; CsrfFetch.method := Some "delete";
     CsrfFetch.headers := Some [("Accept", "text/html"); ("X-Csrf-Token", "stale")];
     CsrfFetch.body := None |}.

(** * Properties *)

(** ** Test vectors of the primitives *)

Example sha256_abc :
  sha256_hex "abc" = "ba7816bf8f01cfea414140de5dae2223b00361a396177a9cb410ff61f20015ad".
Proof. vm_compute. reflexivity. Qed.

Example sha256_empty :
  sha256_hex "" = "e3b0c44298fc1c149afbf4c8996fb92427ae41e4649b934ca495991b7852b855".
Proof. vm_compute. reflexivity. Qed.

Example sha256_two_blocks :
  sha256_hex "abcdbcdecdefdefgefghfghighijhijkijkljklmklmnlmnomnopnopq"
  = "248d6a61d20638b8e5c026930c3e6039a33ce45964ff2167f6ecedd419db06c1".
Proof. vm_compute. reflexivity. Qed.

Example round_constants_ends :
  length Sha256.round_constants = 64
  /\ head Sha256.round_constants = Some 0x428a2f98%Z
  /\ last Sha256.round_constants = Some 0xc67178f2%Z
  /\ Sha256.ra Sha256.initial_hash = 0x6a09e667%Z
  /\ Sha256.rh Sha256.initial_hash = 0x5be0cd19%Z.
Proof. vm_compute. auto. Qed.

Example trim_sample : Js.trim "  a b  " = "a b".
Proof. reflexivity. Qed.

Example hex_sample : Encoding.hex [0; 10; 255]%Z = "000aff".
Proof. reflexivity. Qed.

Example utf8_sample : Encoding.utf8 (String (ascii_of_nat 233) "a") = [195; 169; 97]%Z.
Proof. reflexivity. Qed.

(** ** The token service *)

Section TokenService.

Import Csrf.

Lemma hex_length (bs : list Z) : String.length (Encoding.hex bs) = 2 * length bs.
Proof. induction bs as [|b bs IH]; simpl; [reflexivity | rewrite IH; lia]. Qed.

Lemma digest_length (msg : list Z) : length (Sha256.digest msg) = 32.
Proof.
  unfold Sha256.digest.
  generalize (Sha256.blocks (length (Sha256.pad msg) / 64) Sha256.initial_hash
                (Sha256.pad msg)).
  intros h. reflexivity.
Qed.

(** A digest in hexadecimal has 64 characters, whatever was hashed. *)
Lemma hashToken_length (token : string) : String.length (hashToken token) = 64.
Proof. unfold hashToken, sha256_hex. rewrite hex_length, digest_length. reflexivity. Qed.

Lemma truthy_length (s : string) : Js.truthy s = true <-> String.length s <> 0.
Proof. destruct s; simpl; split; intros H; congruence || lia || reflexivity. Qed.

Lemma truthy_ne (s : string) : Js.truthy s = true <-> s <> "".
Proof. destruct s; simpl; split; intros H; congruence. Qed.

Lemma hashToken_truthy (token : string) : Js.truthy (hashToken token) = true.
Proof. apply truthy_length. rewrite hashToken_length. lia. Qed.

(** The token the generator hands out has 64 characters. *)
Lemma generateCSRFToken_run (w : World) :
  generateCSRFToken w
  = (Next (Encoding.hex (random_byte w <$> seq (entropy_pos w) 32)),
     with_entropy_pos (entropy_pos w + 32) w).
Proof. reflexivity. Qed.

Lemma generated_length (w : World) (s : string) (w' : World) :
  generateCSRFToken w = (Next s, w') -> String.length s = 64.
Proof.
  intros H. assert (Hs : s = Encoding.hex (random_byte w <$> seq (entropy_pos w) 32))
    by (rewrite generateCSRFToken_run in H; congruence).
  rewrite Hs, hex_length, length_fmap, length_seq. reflexivity.
Qed.

Lemma validateCSRFToken_run (token : string) (w : World) :
  validateCSRFToken token w = (Next (valid_in (cookies w) token), w).
Proof.
  unfold validateCSRFToken, valid_in, bind, cookie_value.
  destruct (cookies w !! CSRF_COOKIE_NAME) as [c|]; simpl; [|reflexivity].
  destruct (Js.truthy (Cookie.value c)); simpl; [|reflexivity].
  destruct (Js.truthy token); simpl; [|reflexivity].
  unfold pure. do 2 f_equal. apply bool_decide_ext. split; congruence.
Qed.

Lemma valid_in_iff (jar : gmap string Cookie.t) (token : string) :
  valid_in jar token = true <->
  exists c, jar !! CSRF_COOKIE_NAME = Some c
            /\ token <> "" /\ hashToken token = Cookie.value c.
Proof.
  unfold valid_in. split.
  - destruct (jar !! CSRF_COOKIE_NAME) as [c|]; [|discriminate].
    rewrite !andb_true_iff, bool_decide_eq_true, !truthy_ne.
    intros [[_ Ht] Hh]. exists c. auto.
  - intros (c & -> & Ht & Hh).
    rewrite !andb_true_iff, bool_decide_eq_true. repeat split; auto.
    + rewrite <- Hh. apply hashToken_truthy.
    + apply truthy_ne, Ht.
Qed.

Lemma setCSRFToken_run (w : World) :
  let token := Encoding.hex (random_byte w <$> seq (entropy_pos w) 32) in
  setCSRFToken w
  = (Next token,
     with_cookies
       (<[CSRF_COOKIE_NAME :=
            {| Cookie.value := hashToken token; Cookie.httpOnly := true;
               Cookie.secure := Js.strict_eq (node_env w) "production";
               Cookie.sameSite := "lax"; Cookie.path := "/";
               Cookie.maxAge := 86400 |}]> (cookies w))
       (with_entropy_pos (entropy_pos w + 32) w)).
Proof. reflexivity. Qed.

End TokenService.

Example first_secret_issued (who : option User.t) :
  fst (Csrf.setCSRFToken (sample_world who)) = Next first_secret.
Proof. reflexivity. Qed.

Section TokenClaims.

Import Csrf.

(** C3. [validateCSRFToken] always answers, leaves the world as it is, and
    answers [true] exactly when the jar holds a stored hash, the candidate
    is not the empty string and the hexadecimal SHA-256 digest of the
    candidate is the stored hash. In particular the empty candidate is
    never valid, and nothing is valid while the jar has no token cookie. *)
Theorem C3_validate_iff (token : string) (w : World) :
  exists b : bool,
    validateCSRFToken token w = (Next b, w)
    /\ (b = true <->
        exists c, cookies w !! CSRF_COOKIE_NAME = Some c
                  /\ token <> ""
                  /\ sha256_hex token = Cookie.value c)
    /\ validateCSRFToken "" w = (Next false, w)
    /\ (cookies w !! CSRF_COOKIE_NAME = None -> b = false).
Proof.
  exists (valid_in (cookies w) token). split; [apply validateCSRFToken_run|].
  split; [apply valid_in_iff|]. split.
  - rewrite validateCSRFToken_run. unfold valid_in.
    destruct (cookies w !! CSRF_COOKIE_NAME); [|reflexivity].
    simpl. rewrite andb_false_r. reflexivity.
  - intros H. unfold valid_in. rewrite H. reflexivity.
Qed.

(** After an issuance the jar holds the digest of the secret handed out. *)
Lemma issued_cookie (w : World) (s : string) (w' : World) :
  setCSRFToken w = (Next s, w') ->
  Cookie.value <$> cookies w' !! CSRF_COOKIE_NAME = Some (hashToken s)
  /\ String.length s = 64.
Proof.
  intros H. pose proof (setCSRFToken_run w) as E. cbv zeta in E.
  remember (Encoding.hex (random_byte w <$> seq (entropy_pos w) 32)) as tok eqn:Htok.
  rewrite E in H. injection H as Hs Hw. subst s w'. split.
  - cbn [cookies with_cookies]. rewrite lookup_insert_eq. reflexivity.
  - rewrite Htok, hex_length, length_fmap, length_seq. reflexivity.
Qed.

(** Issuance always hands out a secret. *)
Lemma setCSRFToken_total (w : World) : exists s w', setCSRFToken w = (Next s, w').
Proof. eexists _, _. apply setCSRFToken_run. Qed.

(** Against a jar that holds the digest of [s0], a candidate is valid
    exactly when it is not empty and has the digest of [s0]. *)
Lemma valid_in_issued (jar : gmap string Cookie.t) (s0 token : string) :
  Cookie.value <$> jar !! CSRF_COOKIE_NAME = Some (hashToken s0) ->
  valid_in jar token = true <-> token <> "" /\ hashToken token = hashToken s0.
Proof.
  intros H. rewrite valid_in_iff. split.
  - intros (c & Hc & Ht & Hh). rewrite Hc in H. simpl in H. split; congruence.
  - intros [Ht Hh]. destruct (jar !! CSRF_COOKIE_NAME) as [c|]; [|discriminate].
    exists c. simpl in H. repeat split; congruence.
Qed.

(** C2. The secret an issuance hands out validates against the jar the
    issuance leaves; once a second issuance has replaced the cookie by the
    digest of another secret, the first secret no longer validates and the
    second one does. *)
Theorem C2_latest_secret_validates (w w1 w2 : World) (s1 s2 : string) :
  setCSRFToken w = (Next s1, w1) ->
  getCSRFToken w1 = (Next s2, w2) ->
  hashToken s2 <> hashToken s1 ->
  validateCSRFToken s1 w1 = (Next true, w1)
  /\ validateCSRFToken s1 w2 = (Next false, w2)
  /\ validateCSRFToken s2 w2 = (Next true, w2).
Proof.
  intros H1 H2 Hne.
  apply issued_cookie in H1 as [C1 L1]. apply issued_cookie in H2 as [C2 L2].
  assert (N1 : s1 <> "") by (intros ->; discriminate L1).
  assert (N2 : s2 <> "") by (intros ->; discriminate L2).
  rewrite !validateCSRFToken_run. repeat split; do 2 f_equal.
  - apply (valid_in_issued _ s1); auto.
  - apply not_true_is_false. rewrite (valid_in_issued _ s2) by exact C2.
    intros [_ E]. congruence.
  - apply (valid_in_issued _ s2); auto.
Qed.

Lemma C2_witness :
  validateCSRFToken first_secret (issued_world None) = (Next true, issued_world None)
  /\ validateCSRFToken first_secret (snd (getCSRFToken (issued_world None)))
     = (Next false, snd (getCSRFToken (issued_world None)))
  /\ validateCSRFToken
       "e3eaf1f8ff060d141b222930373e454c535a61686f767d848b9299a0a7aeb5bc"
       (snd (getCSRFToken (issued_world None)))
     = (Next true, snd (getCSRFToken (issued_world None))).
Proof.
  apply (C2_latest_secret_validates (sample_world None)).
  - reflexivity.
  - reflexivity.
  - vm_compute. discriminate.
Defined.

End TokenClaims.

(** ** The request gate *)

Section Gate.

Import PollActions.

Lemma createPoll_gate (fd : FormData.t) : createPoll fd = gate fd create_tail.
Proof. reflexivity. Qed.

Lemma updatePoll_gate (pollId : string) (fd : FormData.t) :
  updatePoll pollId fd = gate fd (update_tail pollId).
Proof. reflexivity. Qed.

Lemma token_missing_or_invalid_run (fd : FormData.t) (w : World) :
  token_missing_or_invalid (FormData.get fd Csrf.FIELD_NAME) w
  = (Next (negb (token_accepted fd w)), w).
Proof.
  unfold token_missing_or_invalid, token_accepted.
  destruct (FormData.get fd Csrf.FIELD_NAME) as [t|]; [|reflexivity].
  destruct (Js.truthy t) eqn:Ht.
  - unfold bind. rewrite validateCSRFToken_run. reflexivity.
  - unfold valid_in. destruct (cookies w !! Csrf.CSRF_COOKIE_NAME); [|reflexivity].
    rewrite Ht, andb_false_r. reflexivity.
Qed.

Lemma token_given_and_invalid_run (tok : option string) (w : World) :
  token_given_and_invalid tok w
  = (Next (match tok with
           | Some t => Js.truthy t && negb (valid_in (cookies w) t)
           | None => false
           end), w).
Proof.
  unfold token_given_and_invalid. destruct tok as [t|]; [|reflexivity].
  destruct (Js.truthy t); [|reflexivity].
  unfold bind. rewrite validateCSRFToken_run. reflexivity.
Qed.

Lemma for_of_options_run (opts : list string) (w : World) :
  for_of opts (fun option =>
    return_if (Js.strict_eq (Js.trim option) "")
      {| error := Some "Empty options are not allowed." |} ;;
    return_if (200 <? String.length option)%nat
      {| error := Some "Option text is too long. Maximum 200 characters allowed." |}) w
  = match first_option_error opts with
    | Some e => (Returned {| error := Some e |}, w)
    | None => (Next tt, w)
    end.
Proof.
  induction opts as [|o opts IH]; [reflexivity|].
  cbn [for_of first_option_error]. unfold bind at 1. unfold option_error.
  unfold bind at 1. unfold Js.strict_eq.
  destruct (bool_decide (Js.trim o = "")); [reflexivity|].
  cbn [return_if pure]. destruct (200 <? String.length o)%nat; [reflexivity|].
  cbn [return_if pure]. apply IH.
Qed.

Lemma size_list_to_set_le (l : list string) :
  size (list_to_set l : gset string) <= length l.
Proof.
  induction l as [|x l IH]; [rewrite list_to_set_nil, size_empty; simpl; lia|].
  rewrite list_to_set_cons. cbn [length].
  rewrite size_union_alt, size_singleton.
  assert (size (list_to_set l ∖ {[x]} : gset string) <= size (list_to_set l : gset string))
    by (apply subseteq_size, subseteq_difference_l; reflexivity).
  lia.
Qed.

(** [new Set(l).size === l.length] says that [l] has no repetition. *)
Lemma size_list_to_set_NoDup (l : list string) :
  size (list_to_set l : gset string) = length l <-> NoDup l.
Proof.
  split; [|apply size_list_to_set].
  induction l as [|x l IH]; [constructor|].
  rewrite list_to_set_cons. cbn [length]. intros H.
  pose proof (size_list_to_set_le l) as Hle.
  destruct (decide (x ∈ l)) as [Hin|Hnin].
  - exfalso.
    assert (E : ({[x]} ∪ list_to_set l : gset string) = list_to_set l)
      by (apply subseteq_union_1_L, singleton_subseteq_l, elem_of_list_to_set, Hin).
    rewrite E in H. lia.
  - constructor; [exact Hnin|]. apply IH.
    rewrite size_union in H
      by (apply disjoint_singleton_l; rewrite elem_of_list_to_set; exact Hnin).
    rewrite size_singleton in H. lia.
Qed.

(** What the first half does: it answers with the token error, or with the
    message of the first input rule that is violated, and in both cases
    leaves the world as it is; otherwise it hands over to the second half. *)
Lemma gate_run (fd : FormData.t) (k : string -> list string -> Action Response)
  (w : World) :
  run (gate fd k) w
  = if token_accepted fd w then
      match first_violation (question_of fd) (options_of fd) with
      | Some e => ({| error := Some e |}, w)
      | None => run (k (default "" (question_of fd)) (options_of fd)) w
      end
    else ({| error := Some invalid_token |}, w).
Proof.
  unfold run, gate. cbv zeta. unfold bind at 1.
  rewrite token_missing_or_invalid_run.
  destruct (token_accepted fd w); cbn [negb]; [|reflexivity].
  unfold bind at 1. cbn [return_if pure].
  fold (question_of fd). fold (options_of fd).
  unfold first_violation, require_text, bind at 1.
  destruct (question_of fd) as [q|]; [|reflexivity].
  assert (Hq : negb (Js.truthy q) || Js.strict_eq (Js.trim q) ""
               = bool_decide (q = "" \/ Js.trim q = "")).
  { unfold Js.strict_eq. destruct q as [|c q'].
    - reflexivity.
    - cbn [Js.truthy negb orb]. apply bool_decide_ext.
      split; [auto|]. intros [H|H]; [discriminate|exact H]. }
  rewrite Hq. destruct (bool_decide (q = "" \/ Js.trim q = "")); [reflexivity|].
  cbn [pure default]. unfold bind at 1.
  destruct (500 <? String.length q)%nat; [reflexivity|]. cbn [return_if pure].
  unfold bind at 1.
  destruct (List.length (options_of fd) <? 2)%nat; [reflexivity|]. cbn [return_if pure].
  unfold bind at 1.
  destruct (10 <? List.length (options_of fd))%nat; [reflexivity|]. cbn [return_if pure].
  unfold bind at 1. rewrite for_of_options_run.
  destruct (first_option_error (options_of fd)); [reflexivity|].
  unfold bind at 1.
  assert (Hd : negb (size (list_to_set (Js.trim <$> options_of fd) : gset string)
                     =? List.length (options_of fd))%nat
               = negb (bool_decide (NoDup (Js.trim <$> options_of fd)))).
  { f_equal. apply eq_true_iff_eq.
    rewrite Nat.eqb_eq, bool_decide_eq_true, <- size_list_to_set_NoDup, length_fmap.
    reflexivity. }
  rewrite Hd. destruct (bool_decide (NoDup (Js.trim <$> options_of fd))); reflexivity.
Qed.

End Gate.

(** ** Running the actions *)

Section Persistence.

Import PollActions.

Lemma has_admin_role_iff (u : User.t) :
  has_admin_role u = true <->
  exists m, User.app_metadata u = Some m /\ User.role m = Some "admin".
Proof.
  unfold has_admin_role. destruct (User.app_metadata u) as [m|].
  - rewrite bool_decide_eq_true. split; [eauto|]. intros (m' & [= <-] & H). exact H.
  - split; [discriminate|]. intros (m & H & _). discriminate.
Qed.

Lemma deletePoll_denied (id : string) (w : World) (u : User.t) (p : Poll.t) :
  session w = Some u -> reliable w ->
  filter (fun x => Poll.id x = id) (polls w) = [p] ->
  Poll.user_id p <> User.id u -> has_admin_role u = false ->
  let r := run (deletePoll id) w in
  fst r = {| error := Some msg_delete_denied |} /\ untouched w (snd r).
Proof.
  intros Hs Hf Hp Ho Ha. unfold untouched. unfold_actions.
  repeat (progress (cbn; rewrite ?Hf, ?Hs, ?Ha, ?Hp)).
  rewrite bool_decide_eq_false_2 by exact Ho. cbn. auto.
Qed.

Lemma deletePoll_allowed (id : string) (w : World) (u : User.t) (p : Poll.t) :
  session w = Some u -> reliable w ->
  filter (fun x => Poll.id x = id) (polls w) = [p] ->
  Poll.user_id p = User.id u \/ has_admin_role u = true ->
  let r := run (deletePoll id) w in
  fst r = {| error := None |}
  /\ polls (snd r) = filter (fun x => Poll.id x <> id) (polls w)
  /\ votes (snd r) = filter (fun v => Vote.poll_id v <> id) (votes w).
Proof.
  intros Hs Hf Hp Ho. unfold_actions.
  destruct (has_admin_role u) eqn:Ha;
    repeat (progress (cbn; rewrite ?Hf, ?Hs, ?Ha, ?Hp)).
  - auto.
  - destruct Ho as [Ho|Ho]; [|discriminate].
    rewrite bool_decide_eq_true_2 by exact Ho.
    repeat (progress (cbn; rewrite ?Hf)). auto.
Qed.

Lemma update_tail_denied (id q : string) (opts : list string) (w : World)
  (u : User.t) (p : Poll.t) :
  session w = Some u -> reliable w ->
  filter (fun x => Poll.id x = id) (polls w) = [p] ->
  Poll.user_id p <> User.id u -> has_admin_role u = false ->
  let r := run (update_tail id q opts) w in
  fst r = {| error := Some msg_update_denied |} /\ untouched w (snd r).
Proof.
  intros Hs Hf Hp Ho Ha. unfold untouched. unfold_actions.
  repeat (progress (cbn; rewrite ?Hf, ?Hs, ?Ha, ?Hp)).
  rewrite bool_decide_eq_false_2 by exact Ho. cbn. auto.
Qed.

Lemma update_tail_allowed (id q : string) (opts : list string) (w : World)
  (u : User.t) (p : Poll.t) :
  session w = Some u -> reliable w ->
  filter (fun x => Poll.id x = id) (polls w) = [p] ->
  Poll.user_id p = User.id u \/ has_admin_role u = true ->
  let r := run (update_tail id q opts) w in
  fst r = {| error := None |}
  /\ polls (snd r) = edited id q opts <$> polls w
  /\ votes (snd r) = votes w.
Proof.
  intros Hs Hf Hp Ho. unfold_actions.
  destruct (has_admin_role u) eqn:Ha;
    repeat (progress (cbn; rewrite ?Hf, ?Hs, ?Ha, ?Hp)).
  - auto.
  - destruct Ho as [Ho|Ho]; [|discriminate].
    rewrite bool_decide_eq_true_2 by exact Ho.
    repeat (progress (cbn; rewrite ?Hf)). auto.
Qed.

(** An update that passes the first half is the second half. *)
Lemma updatePoll_passed (id : string) (fd : FormData.t) (w : World) :
  token_accepted fd w = true ->
  first_violation (question_of fd) (options_of fd) = None ->
  run (updatePoll id fd) w
  = run (update_tail id (default "" (question_of fd)) (options_of fd)) w.
Proof. intros Ht Hv. rewrite updatePoll_gate, gate_run, Ht, Hv. reflexivity. Qed.

Lemma createPoll_passed (fd : FormData.t) (w : World) :
  token_accepted fd w = true ->
  first_violation (question_of fd) (options_of fd) = None ->
  run (createPoll fd) w
  = run (create_tail (default "" (question_of fd)) (options_of fd)) w.
Proof. intros Ht Hv. rewrite createPoll_gate, gate_run, Ht, Hv. reflexivity. Qed.

End Persistence.

Section Ownership.

Import PollActions.

(** C1. On an existing poll, a delete request and an update request that
    got as far as the ownership check (the update carries an accepted
    token and input that breaks no rule; the backend answers) end as
    follows. From an identity that is neither the owner nor an admin:
    the permission error, and nothing is changed. From the owner: success.
    From an admin: success, whoever owns the poll. *)
Theorem C1_owner_or_admin_gate (w : World) (u : User.t) (p : Poll.t) (fd : FormData.t) :
  session w = Some u ->
  reliable w ->
  filter (fun x => Poll.id x = Poll.id p) (polls w) = [p] ->
  token_accepted fd w = true ->
  first_violation (question_of fd) (options_of fd) = None ->
  let del := run (deletePoll (Poll.id p)) w in
  let upd := run (updatePoll (Poll.id p) fd) w in
  let q := default "" (question_of fd) in
  let done :=
    fst del = {| error := None |}
    /\ polls (snd del) = filter (fun x => Poll.id x <> Poll.id p) (polls w)
    /\ votes (snd del) = filter (fun v => Vote.poll_id v <> Poll.id p) (votes w)
    /\ fst upd = {| error := None |}
    /\ polls (snd upd) = edited (Poll.id p) q (options_of fd) <$> polls w in
  (Poll.user_id p <> User.id u -> has_admin_role u = false ->
   fst del = {| error := Some msg_delete_denied |} /\ untouched w (snd del)
   /\ fst upd = {| error := Some msg_update_denied |} /\ untouched w (snd upd))
  /\ (Poll.user_id p = User.id u -> done)
  /\ (has_admin_role u = true -> done).
Proof.
  intros Hs Hf Hp Ht Hv. cbv zeta.
  rewrite (updatePoll_passed _ _ _ Ht Hv).
  assert (Hdone : Poll.user_id p = User.id u \/ has_admin_role u = true ->
                  fst (run (deletePoll (Poll.id p)) w) = {| error := None |}
                  /\ polls (snd (run (deletePoll (Poll.id p)) w))
                     = filter (fun x => Poll.id x <> Poll.id p) (polls w)
                  /\ votes (snd (run (deletePoll (Poll.id p)) w))
                     = filter (fun v => Vote.poll_id v <> Poll.id p) (votes w)
                  /\ fst (run (update_tail (Poll.id p) (default "" (question_of fd))
                                 (options_of fd)) w) = {| error := None |}
                  /\ polls (snd (run (update_tail (Poll.id p)
                                        (default "" (question_of fd))
                                        (options_of fd)) w))
                     = edited (Poll.id p) (default "" (question_of fd)) (options_of fd)
                         <$> polls w).
  { intros Ho.
    destruct (deletePoll_allowed _ _ _ _ Hs Hf Hp Ho) as (D1 & D2 & D3).
    destruct (update_tail_allowed _ (default "" (question_of fd)) (options_of fd)
                _ _ _ Hs Hf Hp Ho) as (U1 & U2 & _).
    auto. }
  split; [|split].
  - intros Ho Ha.
    destruct (deletePoll_denied _ _ _ _ Hs Hf Hp Ho Ha) as [D1 D2].
    destruct (update_tail_denied _ (default "" (question_of fd)) (options_of fd)
                _ _ _ Hs Hf Hp Ho Ha) as [U1 U2].
    auto.
  - intros Ho. apply Hdone. left. exact Ho.
  - intros Ha. apply Hdone. right. exact Ha.
Qed.

End Ownership.

Lemma C1_witness :
  fst (run (PollActions.deletePoll "p1") (issued_world (Some bob)))
  = {| error := Some msg_delete_denied |}
  /\ fst (run (PollActions.updatePoll "p1" good_form) (issued_world (Some bob)))
     = {| error := Some msg_update_denied |}.
Proof.
  assert (H : Poll.user_id lunch <> User.id bob) by discriminate.
  pose proof (C1_owner_or_admin_gate (issued_world (Some bob)) bob lunch good_form
                eq_refl (fun c => eq_refl) eq_refl) as G.
  assert (Ht : token_accepted good_form (issued_world (Some bob)) = true)
    by (vm_compute; reflexivity).
  assert (Hv : first_violation (question_of good_form) (options_of good_form) = None)
    by (vm_compute; reflexivity).
  destruct (G Ht Hv) as [Den _].
  destruct (Den H eq_refl) as (D & _ & U & _).
  split; [exact D | exact U].
Defined.

Section Deletion.

Import PollActions.

(** An action only ever adds to the journal. *)
Lemma deletePoll_journal (id : string) (w : World) :
  journal (snd (run (deletePoll id) w))
  = journal w ++ events_since w (run (deletePoll id) w).
Proof.
  unfold events_since. unfold_actions. case_split;
    rewrite <- ?app_assoc; rewrite drop_app_length; reflexivity.
Qed.

(** C8. A run of [deletePoll] that succeeds has asked for the deletion of
    the poll's votes and then, next, for the deletion of the poll; before
    these two it only read. When the deletion of the votes fails, the
    poll table is left as it is and the deletion of the poll is never
    asked for; and if the deletion of the votes was asked for, the answer
    is the error it failed with. *)
Theorem C8_votes_deleted_first (id : string) (w : World) :
  let r := run (deletePoll id) w in
  (error (fst r) = None ->
   exists reads,
     events_since w r
     = reads ++ [EvVotesDelete id; EvPollsDelete id; EvRevalidatePath "/polls"]
     /\ (reads = [EvGetUser] \/ reads = [EvGetUser; EvPollsSelect "user_id" id])
     /\ votes (snd r) = filter (fun v => Vote.poll_id v <> id) (votes w)
     /\ polls (snd r) = filter (fun x => Poll.id x <> id) (polls w))
  /\ (forall e, faults w VotesDelete = Some e ->
      polls (snd r) = polls w
      /\ votes (snd r) = votes w
      /\ (EvPollsDelete id ∉ events_since w r)
      /\ ((EvVotesDelete id ∈ events_since w r) -> fst r = {| error := Some e |})).
Proof.
  cbv zeta. split.
  - unfold events_since. unfold_actions. case_split; intros H; try discriminate H;
      rewrite <- ?app_assoc; rewrite drop_app_length.
    + exists [EvGetUser; EvPollsSelect "user_id" id]. auto.
    + exists [EvGetUser]. auto.
  - intros e He. unfold events_since. unfold_actions. rewrite ?He.
    case_split; try congruence;
      rewrite <- ?app_assoc; rewrite ?drop_app_length;
      (split; [reflexivity|]); (split; [reflexivity|]);
      (split; [intros Hin; solve [absurd_event]|]); intros Hin; try reflexivity;
      try solve [absurd_event].
    all: congruence.
Qed.

End Deletion.

Section TokenEnforcement.

Import PollActions.

Lemma token_accepted_false (fd : FormData.t) (w : World) :
  token_accepted fd w = false <->
  FormData.get fd Csrf.FIELD_NAME = None
  \/ exists t, FormData.get fd Csrf.FIELD_NAME = Some t
               /\ Csrf.validateCSRFToken t w = (Next false, w).
Proof.
  unfold token_accepted. destruct (FormData.get fd Csrf.FIELD_NAME) as [t|].
  - split.
    + intros H. right. exists t. rewrite validateCSRFToken_run, H. auto.
    + intros [H|(t' & [= <-] & H)]; [discriminate|].
      rewrite validateCSRFToken_run in H. congruence.
  - split; auto.
Qed.

(** C6. [createPoll] and [updatePoll] answer with the token error, and do
    nothing else, whenever the form has no token or the token does not
    validate. [submitVote] checks a token only when it is given one: given
    one that does not validate it answers with the token error, given one
    that validates it does what it does without a token, and without a
    token it goes on to ask who is signed in, whatever the jar holds.
    [deletePoll] takes no token and never looks at the jar. *)
Theorem C6_token_enforcement (w : World) (fd : FormData.t) (pollId : string)
  (optionIndex : Z) :
  let refused := ({| error := Some invalid_token |}, w) in
  let vote := run (submitVote pollId optionIndex None) w in
  let del := run (deletePoll pollId) w in
  ((FormData.get fd Csrf.FIELD_NAME = None
    \/ exists t, FormData.get fd Csrf.FIELD_NAME = Some t
                 /\ Csrf.validateCSRFToken t w = (Next false, w)) ->
   run (createPoll fd) w = refused /\ run (updatePoll pollId fd) w = refused)
  /\ (forall t, t <> "" -> Csrf.validateCSRFToken t w = (Next false, w) ->
      run (submitVote pollId optionIndex (Some t)) w = refused)
  /\ (forall t, Csrf.validateCSRFToken t w = (Next true, w) ->
      run (submitVote pollId optionIndex (Some t)) w = vote)
  /\ (exists rest, events_since w vote = EvGetUser :: rest)
  /\ (forall jar, run (submitVote pollId optionIndex None) (with_cookies jar w)
                  = (fst vote, with_cookies jar (snd vote)))
  /\ (forall jar, run (deletePoll pollId) (with_cookies jar w)
                  = (fst del, with_cookies jar (snd del))).
Proof.
  cbv zeta. repeat split.
  - apply token_accepted_false in H.
    rewrite createPoll_gate, gate_run, H. reflexivity.
  - apply token_accepted_false in H.
    rewrite updatePoll_gate, gate_run, H. reflexivity.
  - intros t Ht Hv. rewrite validateCSRFToken_run in Hv.
    assert (Hf : valid_in (cookies w) t = false) by congruence.
    apply truthy_ne in Ht.
    unfold run, submitVote. unfold bind at 1.
    rewrite token_given_and_invalid_run, Ht, Hf. reflexivity.
  - intros t Hv. rewrite validateCSRFToken_run in Hv.
    assert (Ht : valid_in (cookies w) t = true) by congruence.
    unfold run, submitVote. unfold bind at 1. unfold bind at 6.
    rewrite !token_given_and_invalid_run, Ht, andb_false_r. reflexivity.
  - unfold events_since, submitVote, token_given_and_invalid. unfold_actions.
    case_split; rewrite <- ?app_assoc; rewrite drop_app_length; eauto.
  - intros jar. unfold submitVote, token_given_and_invalid. unfold_actions.
    case_split; reflexivity.
  - intros jar. unfold_actions. case_split; reflexivity.
Qed.

End TokenEnforcement.

(** ** One vote per identity and poll *)

Section Voting.

Import PollActions.

Lemma votes_of_at_most_one (pollId userId : string) (vs : list Vote.t) :
  one_vote_each vs -> length (votes_of pollId userId vs) <= 1.
Proof.
  unfold one_vote_each, votes_of. induction vs as [|v vs IH]; [simpl; lia|].
  rewrite fmap_cons, NoDup_cons. intros [Hnin Hnd]. rewrite filter_cons.
  destruct (decide (Vote.poll_id v = pollId /\ Vote.user_id v = userId)) as [[Hp Hu]|_];
    [|apply IH, Hnd].
  destruct (filter (fun v => Vote.poll_id v = pollId /\ Vote.user_id v = userId) vs)
    as [|x rest] eqn:E; [simpl; lia|].
  exfalso. apply Hnin.
  assert (Hx : x ∈ filter (fun v => Vote.poll_id v = pollId /\ Vote.user_id v = userId) vs)
    by (rewrite E; left).
  apply list_elem_of_filter in Hx as [[Hxp Hxu] Hx].
  apply list_elem_of_fmap. exists x. split; [|exact Hx].
  unfold vote_key. congruence.
Qed.

Lemma bind_next {A B} (m : Action A) (k : A -> Action B) (w w' : World) (a : A) :
  m w = (Next a, w') -> bind m k w = k a w'.
Proof. intros H. unfold bind. rewrite H. reflexivity. Qed.

Lemma token_given_and_invalid_passes (tok : option string) (w : World) :
  vote_token_passes tok w = true ->
  token_given_and_invalid tok w = (Next false, w).
Proof.
  rewrite token_given_and_invalid_run. unfold vote_token_passes.
  destruct tok as [t|]; [|reflexivity].
  destruct (Js.truthy t), (valid_in (cookies w) t); simpl; congruence.
Qed.

(** Up to the look-up of an earlier vote. *)
Lemma submitVote_already (pollId : string) (optionIndex : Z) (tok : option string)
  (w : World) (u : User.t) (v : Vote.t) :
  vote_token_passes tok w = true -> session w = Some u -> reliable w ->
  votes_of pollId (User.id u) (votes w) = [v] ->
  let r := run (submitVote pollId optionIndex tok) w in
  fst r = {| error := Some msg_already_voted |} /\ untouched w (snd r).
Proof.
  intros Ht Hs Hf Hv. unfold votes_of in Hv. unfold untouched, run, submitVote.
  rewrite (bind_next _ _ _ _ _ (token_given_and_invalid_passes _ _ Ht)). unfold_actions.
  repeat (progress (cbn; rewrite ?Hf, ?Hs, ?Hv)). auto.
Qed.

(** Past the look-up of an earlier vote, on an existing poll. *)
Lemma submitVote_fresh (pollId : string) (optionIndex : Z) (tok : option string)
  (w : World) (u : User.t) (p : Poll.t) :
  vote_token_passes tok w = true -> session w = Some u -> reliable w ->
  votes_of pollId (User.id u) (votes w) = [] ->
  filter (fun x => Poll.id x = pollId) (polls w) = [p] ->
  let r := run (submitVote pollId optionIndex tok) w in
  if ((optionIndex <? 0) || (optionIndex >=? Z.of_nat (length (Poll.options p))))%Z
  then fst r = {| error := Some msg_invalid_option |} /\ untouched w (snd r)
  else fst r = {| error := None |}
       /\ votes (snd r)
          = votes w ++ [{| Vote.poll_id := pollId; Vote.user_id := User.id u;
                           Vote.option_index := optionIndex |}]
       /\ polls (snd r) = polls w.
Proof.
  intros Ht Hs Hf Hv Hp. unfold votes_of in Hv. unfold untouched, run, submitVote.
  rewrite (bind_next _ _ _ _ _ (token_given_and_invalid_passes _ _ Ht)). unfold_actions.
  repeat (progress (cbn; rewrite ?Hf, ?Hs, ?Hv, ?Hp)).
  destruct ((optionIndex <? 0) || (optionIndex >=? Z.of_nat (length (Poll.options p))))%Z;
    repeat (progress (cbn; rewrite ?Hf)); auto.
Qed.

(** C4. A vote of a signed-in identity on an existing poll, with a token
    that [submitVote] lets pass, a backend that answers and a [votes]
    table with at most one row per poll and identity: if the identity
    already has a row for the poll, the answer is the already-voted error
    and no row is added; if the index is the number of options or more, or
    negative, the vote is turned down and no row is added; otherwise the
    row is added. *)
Theorem C4_vote_gate (w : World) (u : User.t) (p : Poll.t) (optionIndex : Z)
  (csrfToken : option string) :
  session w = Some u ->
  reliable w ->
  vote_token_passes csrfToken w = true ->
  one_vote_each (votes w) ->
  filter (fun x => Poll.id x = Poll.id p) (polls w) = [p] ->
  let r := run (submitVote (Poll.id p) optionIndex csrfToken) w in
  let mine := votes_of (Poll.id p) (User.id u) (votes w) in
  let count := Z.of_nat (length (Poll.options p)) in
  (mine <> [] -> fst r = {| error := Some msg_already_voted |} /\ untouched w (snd r))
  /\ ((count <= optionIndex)%Z -> rejected w r)
  /\ ((optionIndex < 0)%Z -> rejected w r)
  /\ (mine = [] -> (count <= optionIndex \/ optionIndex < 0)%Z ->
      fst r = {| error := Some msg_invalid_option |})
  /\ (mine = [] -> (0 <= optionIndex < count)%Z ->
      fst r = {| error := None |}
      /\ votes (snd r)
         = votes w ++ [{| Vote.poll_id := Poll.id p; Vote.user_id := User.id u;
                          Vote.option_index := optionIndex |}]).
Proof.
  intros Hs Hf Ht Hinv Hp. cbv zeta.
  pose proof (votes_of_at_most_one (Poll.id p) (User.id u) _ Hinv) as Hle.
  pose proof (submitVote_fresh (Poll.id p) optionIndex csrfToken w u p Ht Hs Hf) as Fresh.
  pose proof (submitVote_already (Poll.id p) optionIndex csrfToken w u) as Already.
  cbv zeta in Fresh, Already.
  assert (Bad : (Z.of_nat (length (Poll.options p)) <= optionIndex \/ optionIndex < 0)%Z ->
                ((optionIndex <? 0)
                 || (optionIndex >=? Z.of_nat (length (Poll.options p))))%Z = true).
  { intros H. apply orb_true_iff. rewrite Z.ltb_lt, Z.geb_le. lia. }
  assert (Rej : (Z.of_nat (length (Poll.options p)) <= optionIndex \/ optionIndex < 0)%Z ->
                rejected w (run (submitVote (Poll.id p) optionIndex csrfToken) w)).
  { intros H. unfold rejected.
    destruct (votes_of (Poll.id p) (User.id u) (votes w)) as [|v [|v' rest]] eqn:E.
    - specialize (Fresh eq_refl Hp). rewrite (Bad H) in Fresh.
      destruct Fresh as [-> U]. split; [discriminate|exact U].
    - destruct (Already v Ht Hs Hf eq_refl) as [-> U]. split; [discriminate|exact U].
    - simpl in Hle. lia. }
  split; [|split; [|split; [|split]]].
  - intros Hne.
    destruct (votes_of (Poll.id p) (User.id u) (votes w)) as [|v [|v' rest]] eqn:E.
    + congruence.
    + exact (Already v Ht Hs Hf eq_refl).
    + simpl in Hle. lia.
  - intros H. apply Rej. left. exact H.
  - intros H. apply Rej. right. exact H.
  - intros Hm H. specialize (Fresh Hm Hp). rewrite (Bad H) in Fresh. apply Fresh.
  - intros Hm H. specialize (Fresh Hm Hp).
    assert (Ok : ((optionIndex <? 0)
                  || (optionIndex >=? Z.of_nat (length (Poll.options p))))%Z = false).
    { apply orb_false_iff. rewrite Z.ltb_ge. split; [lia|].
      apply not_true_is_false. rewrite Z.geb_le. lia. }
    rewrite Ok in Fresh. destruct Fresh as (F1 & F2 & _). auto.
Qed.

End Voting.

(** ** The input rules *)

Section InputRules.

Import PollActions.

Lemma trim_empty : Js.trim "" = "".
Proof. reflexivity. Qed.

Lemma option_error_None (o : string) : option_error o = None <-> valid_option o.
Proof.
  unfold option_error, valid_option. case_bool_decide as Hb.
  - split; [discriminate|]. intros [H _]. contradiction.
  - destruct (200 <? String.length o)%nat eqn:Hl.
    + apply Nat.ltb_lt in Hl. split; [discriminate|]. intros [_ H]. lia.
    + apply Nat.ltb_ge in Hl. split; auto.
Qed.

Lemma first_option_error_None (opts : list string) :
  first_option_error opts = None <-> Forall valid_option opts.
Proof.
  induction opts as [|o opts IH]; [split; auto|].
  cbn [first_option_error]. rewrite Forall_cons, <- IH, <- option_error_None.
  destruct (option_error o); split; intros H; try discriminate; tauto || (destruct H; discriminate).
Qed.

(** The verdict on the options is the verdict on the first option that
    has one: every option before it breaks no rule. *)
Lemma first_option_error_Some (opts : list string) (e : string) :
  first_option_error opts = Some e <->
  exists i o, opts !! i = Some o /\ option_error o = Some e
              /\ forall j o', j < i -> opts !! j = Some o' -> valid_option o'.
Proof.
  induction opts as [|o opts IH].
  - split; [discriminate|]. intros (i & o & H & _). discriminate.
  - cbn [first_option_error]. destruct (option_error o) as [e'|] eqn:E.
    + split.
      * intros [= <-]. exists 0, o. split; [reflexivity|]. split; [exact E|]. lia.
      * intros ([|i] & o' & Hi & He & Hb).
        -- simpl in Hi. congruence.
        -- assert (V : valid_option o) by (apply (Hb 0 o); [lia|reflexivity]).
           apply option_error_None in V. congruence.
    + rewrite IH. split.
      * intros (i & o' & Hi & He & Hb). exists (S i), o'. split; [exact Hi|].
        split; [exact He|]. intros [|j] o'' Hj Ho.
        -- simpl in Ho. injection Ho as <-. apply option_error_None, E.
        -- apply (Hb j); [lia|exact Ho].
      * intros ([|i] & o' & Hi & He & Hb).
        -- simpl in Hi. congruence.
        -- exists i, o'. split; [exact Hi|]. split; [exact He|].
           intros j o'' Hj Ho. apply (Hb (S j)); [lia|exact Ho].
Qed.

(** Input breaks no rule exactly when the question and every option are
    valid, the options are two to ten, and no two are equal once trimmed. *)
Lemma first_violation_None (question : option string) (opts : list string) :
  first_violation question opts = None <->
  exists q, question = Some q /\ valid_question q
            /\ 2 <= length opts <= 10
            /\ Forall valid_option opts
            /\ NoDup (Js.trim <$> opts).
Proof.
  unfold first_violation, valid_question. destruct question as [q|].
  2: { split; [discriminate|]. intros (q & H & _). discriminate. }
  case_bool_decide as Hq.
  { split; [discriminate|]. intros (q' & [= <-] & [Ht _] & _).
    destruct Hq as [->|Hq]; contradiction. }
  destruct (500 <? String.length q)%nat eqn:Hl.
  { apply Nat.ltb_lt in Hl. split; [discriminate|].
    intros (q' & [= <-] & [_ H] & _). lia. }
  destruct (length opts <? 2)%nat eqn:H2.
  { apply Nat.ltb_lt in H2. split; [discriminate|].
    intros (q' & _ & _ & H & _). lia. }
  destruct (10 <? length opts)%nat eqn:H10.
  { apply Nat.ltb_lt in H10. split; [discriminate|].
    intros (q' & _ & _ & H & _). lia. }
  apply Nat.ltb_ge in Hl, H2, H10.
  destruct (first_option_error opts) as [e|] eqn:Ho.
  { split; [discriminate|]. intros (q' & _ & _ & _ & H & _).
    apply first_option_error_None in H. congruence. }
  apply first_option_error_None in Ho. case_bool_decide as Hd.
  - split; [|reflexivity]. intros _. exists q. repeat split; auto; lia.
  - split; [discriminate|]. intros (q' & _ & _ & _ & _ & H). contradiction.
Qed.

(** A form that breaks a rule is turned down by both actions with the
    message of the first rule it breaks, and nothing happens. *)
Lemma gate_turns_down (fd : FormData.t) (w : World) (pollId e : string) :
  token_accepted fd w = true ->
  first_violation (question_of fd) (options_of fd) = Some e ->
  run (createPoll fd) w = ({| error := Some e |}, w)
  /\ run (updatePoll pollId fd) w = ({| error := Some e |}, w).
Proof.
  intros Ht Hv. rewrite createPoll_gate, updatePoll_gate, !gate_run, Ht, Hv. auto.
Qed.

(** C7, in the order the code follows. With an accepted token, a form that breaks several
    input rules is answered, by [createPoll] and by [updatePoll] alike,
    with the message of the first rule it breaks in this order: question
    missing or blank, question longer than 500, fewer than two options,
    more than ten options, then the verdict of the first option in
    submission order that is blank after trimming or longer than 200
    (blank being looked at first on that option), then options equal once
    trimmed. Nothing is written. *)
Theorem C7_first_violation_decides (fd : FormData.t) (w : World) (pollId e : string) :
  token_accepted fd w = true ->
  first_violation (question_of fd) (options_of fd) = Some e ->
  run (createPoll fd) w = ({| error := Some e |}, w)
  /\ run (updatePoll pollId fd) w = ({| error := Some e |}, w).
Proof.
  intros Ht Hv. split.
  - rewrite createPoll_gate, gate_run, Ht, Hv. reflexivity.
  - rewrite updatePoll_gate, gate_run, Ht, Hv. reflexivity.
Qed.

Lemma C7_witness :
  run (createPoll long_then_blank_form) (issued_world (Some alice))
  = ({| error := Some msg_option_long |}, issued_world (Some alice))
  /\ run (updatePoll "p1" long_then_blank_form) (issued_world (Some alice))
     = ({| error := Some msg_option_long |}, issued_world (Some alice)).
Proof.
  apply (C7_first_violation_decides long_then_blank_form (issued_world (Some alice))).
  - vm_compute. reflexivity.
  - vm_compute. reflexivity.
Defined.

(** The order the specification words is not the order of the code: on a
    form whose first option is too long and whose second option is blank,
    the worded order names the empty option, the two actions name the
    length. *)
Lemma C7_counterexample :
  token_accepted long_then_blank_form (issued_world (Some alice)) = true
  /\ stated_violation (question_of long_then_blank_form)
       (options_of long_then_blank_form) = Some msg_empty_option
  /\ error (fst (run (createPoll long_then_blank_form) (issued_world (Some alice))))
     = Some msg_option_long
  /\ error (fst (run (updatePoll "p1" long_then_blank_form) (issued_world (Some alice))))
     = Some msg_option_long
  /\ msg_option_long <> msg_empty_option.
Proof.
  split; [vm_compute; reflexivity|]. split; [vm_compute; reflexivity|].
  split; [vm_compute; reflexivity|]. split; [vm_compute; reflexivity|].
  discriminate.
Qed.

End InputRules.

(** ** Creating and updating *)

Section Creating.

Import PollActions.

(** Every way [createPoll]'s second half can end. *)
Lemma create_tail_cases (q : string) (opts : list string) (w : World) :
  let r := run (create_tail q opts) w in
  cookies (snd r) = cookies w /\ votes (snd r) = votes w
  /\ match error (fst r) with
     | None => exists u, session w = Some u
                         /\ polls (snd r) = polls w ++ [new_poll w u q opts]
     | Some _ => polls (snd r) = polls w
     end.
Proof. unfold new_poll. unfold_actions. case_split; eauto. Qed.

Lemma create_tail_ok (q : string) (opts : list string) (w : World) (u : User.t) :
  session w = Some u -> reliable w ->
  let r := run (create_tail q opts) w in
  fst r = {| error := None |}
  /\ polls (snd r) = polls w ++ [new_poll w u q opts]
  /\ votes (snd r) = votes w.
Proof.
  intros Hs Hf. unfold new_poll. unfold_actions.
  repeat (progress (cbn; rewrite ?Hf, ?Hs)). auto.
Qed.

(** Every way [updatePoll]'s second half can end. *)
Lemma update_tail_cases (id q : string) (opts : list string) (w : World) :
  let r := run (update_tail id q opts) w in
  cookies (snd r) = cookies w /\ votes (snd r) = votes w
  /\ match error (fst r) with
     | None => polls (snd r) = edited id q opts <$> polls w
     | Some _ => polls (snd r) = polls w
     end.
Proof. unfold edited. unfold_actions. case_split; eauto. Qed.

(** Every way the two actions can end, seen from the tables. *)
Lemma createPoll_cases (fd : FormData.t) (w : World) :
  let r := run (createPoll fd) w in
  match error (fst r) with
  | None =>
      exists q u, question_of fd = Some q /\ session w = Some u
                  /\ first_violation (question_of fd) (options_of fd) = None
                  /\ polls (snd r) = polls w ++ [new_poll w u q (options_of fd)]
                  /\ votes (snd r) = votes w
  | Some _ => untouched w (snd r)
  end.
Proof.
  cbv zeta. rewrite createPoll_gate, gate_run. unfold untouched.
  destruct (token_accepted fd w); [|simpl; auto].
  destruct (first_violation (question_of fd) (options_of fd)) as [e|] eqn:Hv;
    [simpl; auto|].
  pose proof Hv as Hq. apply first_violation_None in Hq as (q & Hq & _).
  rewrite Hq. change (default "" (Some q)) with q.
  pose proof (create_tail_cases q (options_of fd) w) as (Hc & Hvt & Hp). cbv zeta in *.
  destruct (error (fst (run (create_tail q (options_of fd)) w))).
  - auto.
  - destruct Hp as (u & Hs & Hp). exists q, u. auto 10.
Qed.

Lemma updatePoll_cases (pollId : string) (fd : FormData.t) (w : World) :
  let r := run (updatePoll pollId fd) w in
  match error (fst r) with
  | None =>
      exists q, question_of fd = Some q
                /\ first_violation (question_of fd) (options_of fd) = None
                /\ polls (snd r) = edited pollId q (options_of fd) <$> polls w
                /\ votes (snd r) = votes w
  | Some _ => untouched w (snd r)
  end.
Proof.
  cbv zeta. rewrite updatePoll_gate, gate_run. unfold untouched.
  destruct (token_accepted fd w); [|simpl; auto].
  destruct (first_violation (question_of fd) (options_of fd)) as [e|] eqn:Hv;
    [simpl; auto|].
  pose proof Hv as Hq. apply first_violation_None in Hq as (q & Hq & _).
  rewrite Hq. change (default "" (Some q)) with q.
  pose proof (update_tail_cases pollId q (options_of fd) w) as (Hc & Hvt & Hp).
  cbv zeta in *.
  destruct (error (fst (run (update_tail pollId q (options_of fd)) w))).
  - auto.
  - exists q. auto 10.
Qed.

(** A form that breaks a rule, or whose token is not accepted, is turned
    down by both actions. *)
Lemma broken_form_rejected (fd : FormData.t) (w : World) (pollId : string) :
  first_violation (question_of fd) (options_of fd) <> None ->
  rejected w (run (createPoll fd) w) /\ rejected w (run (updatePoll pollId fd) w).
Proof.
  intros Hv. unfold rejected, untouched.
  rewrite createPoll_gate, updatePoll_gate, !gate_run.
  destruct (token_accepted fd w); [|simpl; auto 10].
  destruct (first_violation (question_of fd) (options_of fd)); [|contradiction].
  simpl. auto 10.
Qed.

Lemma options_of_length (fd : FormData.t) :
  length (options_of fd) <= length (FormData.getAll fd "options").
Proof. apply filter_length_le. Qed.

(** C5. A create-poll submission with an accepted token, from a signed-in
    identity, to a backend that answers. Counting the options the action
    counts (the entries that are not the empty string): with one option
    it fails; with eleven it fails; with a question of 501 characters it
    fails; with two options equal once trimmed it fails; and each failure
    answers an error and adds nothing. With a valid question and two to
    ten valid options, no two equal once trimmed, it succeeds and adds
    the poll. *)
Theorem C5_create_bounds (fd : FormData.t) (w : World) (u : User.t) :
  token_accepted fd w = true ->
  session w = Some u ->
  reliable w ->
  let r := run (createPoll fd) w in
  let opts := options_of fd in
  (length opts = 1 \/ length (FormData.getAll fd "options") = 1 -> rejected w r)
  /\ (length opts = 11 -> rejected w r)
  /\ (forall q, question_of fd = Some q -> String.length q = 501 -> rejected w r)
  /\ (forall i j a b, i <> j -> opts !! i = Some a -> opts !! j = Some b ->
                      Js.trim a = Js.trim b -> rejected w r)
  /\ (forall q, question_of fd = Some q -> valid_question q ->
                2 <= length opts <= 10 -> Forall valid_option opts ->
                NoDup (Js.trim <$> opts) ->
                fst r = {| error := None |}
                /\ polls (snd r)
                   = polls w ++ [{| Poll.id := fresh_id w (issued_ids w);
                                    Poll.user_id := User.id u;
                                    Poll.question := Js.trim q;
                                    Poll.options := Js.trim <$> opts |}]
                /\ votes (snd r) = votes w).
Proof.
  intros Ht Hs Hf. cbv zeta.
  assert (Rej : first_violation (question_of fd) (options_of fd) <> None ->
                rejected w (run (createPoll fd) w))
    by (intros H; apply (broken_form_rejected fd w "" H)).
  pose proof (options_of_length fd) as Hlen.
  split; [|split; [|split; [|split]]].
  - intros H1. apply Rej. rewrite first_violation_None.
    intros (q & _ & _ & Hn & _). lia.
  - intros H11. apply Rej. rewrite first_violation_None.
    intros (q & _ & _ & Hn & _). lia.
  - intros q Hq H501. apply Rej. rewrite first_violation_None.
    intros (q' & Hq' & [_ Hl] & _). assert (q' = q) by congruence. subst q'. lia.
  - intros i j a b Hij Ha Hb Hab. apply Rej. rewrite first_violation_None.
    intros (q & _ & _ & _ & _ & Hd).
    apply Hij. apply (NoDup_lookup _ i j (Js.trim a) Hd); rewrite list_lookup_fmap.
    + rewrite Ha. reflexivity.
    + rewrite Hb, Hab. reflexivity.
  - intros q Hq Hvq Hn Hvo Hd.
    rewrite createPoll_passed; [|exact Ht|].
    + rewrite Hq. apply (create_tail_ok q (options_of fd) w u Hs Hf).
    + apply first_violation_None. exists q. auto.
Qed.

Lemma C5_witness :
  fst (run (createPoll good_form) (issued_world (Some alice))) = {| error := None |}
  /\ polls (snd (run (createPoll good_form) (issued_world (Some alice))))
     = [lunch; colour;
        {| Poll.id := "3"; Poll.user_id := "alice";
           Poll.question := "Tea or coffee?"; Poll.options := ["tea"; "coffee"] |}]
  /\ votes (snd (run (createPoll good_form) (issued_world (Some alice))))
     = votes (issued_world (Some alice)).
Proof.
  assert (Ht : token_accepted good_form (issued_world (Some alice)) = true)
    by (vm_compute; reflexivity).
  pose proof (C5_create_bounds good_form (issued_world (Some alice)) alice
                Ht eq_refl (fun c => eq_refl)) as (_ & _ & _ & _ & Good).
  apply (Good " Tea or coffee? ").
  - reflexivity.
  - apply (bool_decide_unpack _). vm_compute. exact I.
  - apply (bool_decide_unpack _). vm_compute. exact I.
  - apply (bool_decide_unpack _). vm_compute. exact I.
  - apply (bool_decide_unpack _). vm_compute. exact I.
Defined.

End Creating.

Section EmptyOptions.

Import PollActions.

Lemma get_without_empty_options (fd : FormData.t) (name : string) :
  name <> "options" ->
  FormData.get (without_empty_options fd) name = FormData.get fd name.
Proof.
  intros Hn. unfold FormData.get, without_empty_options.
  rewrite list_filter_filter_l; [reflexivity|].
  intros [k v] Hk [Ho _]. simpl in *. congruence.
Qed.

Lemma options_of_without_empty_options (fd : FormData.t) :
  options_of (without_empty_options fd) = options_of fd.
Proof.
  unfold options_of, FormData.getAll, without_empty_options.
  induction fd as [|[k v] fd IH]; [reflexivity|].
  rewrite (filter_cons (fun e => ~ (fst e = "options" /\ snd e = ""))).
  rewrite (filter_cons (fun e => fst e = "options") (k, v) fd).
  destruct (decide (~ (fst (k, v) = "options" /\ snd (k, v) = ""))) as [Hkeep|Hdrop].
  - rewrite filter_cons.
    destruct (decide (fst (k, v) = "options")); [|exact IH].
    rewrite !fmap_cons. cbn [List.filter]. rewrite IH. reflexivity.
  - apply dec_stable in Hdrop. destruct Hdrop as [Hk Hv]. simpl in Hk, Hv. subst k v.
    rewrite decide_True by reflexivity.
    rewrite fmap_cons. cbn [List.filter snd Js.truthy]. exact IH.
Qed.

(** The options an action looks at are the submitted ones that are not
    the empty string, in the order submitted. *)
Lemma options_of_nonempty (fd : FormData.t) :
  options_of fd = filter (fun o => o <> "") (FormData.getAll fd "options").
Proof.
  unfold options_of. induction (FormData.getAll fd "options") as [|o l IH];
    [reflexivity|].
  rewrite filter_cons. cbn [List.filter]. destruct o as [|c o].
  - rewrite decide_False by auto. exact IH.
  - rewrite decide_True by discriminate. cbn [Js.truthy]. rewrite IH. reflexivity.
Qed.

Lemma without_empty_options_same (fd : FormData.t) (w : World) (pollId : string) :
  run (createPoll fd) w = run (createPoll (without_empty_options fd)) w
  /\ run (updatePoll pollId fd) w = run (updatePoll pollId (without_empty_options fd)) w.
Proof.
  rewrite !createPoll_gate, !updatePoll_gate, !gate_run.
  unfold token_accepted, question_of.
  rewrite !get_without_empty_options by discriminate.
  rewrite options_of_without_empty_options. auto.
Qed.

Lemma first_violation_empty_option (question : option string) (opts : list string) :
  first_violation question opts = Some msg_empty_option ->
  exists o, In o opts /\ Js.trim o = "".
Proof.
  unfold first_violation. destruct question as [q|]; [|discriminate].
  repeat (match goal with
          | |- context [if ?b then _ else _] => destruct b; [discriminate|]
          end).
  destruct (first_option_error opts) as [e|] eqn:E.
  - intros [= ->]. apply first_option_error_Some in E as (i & o & Hi & He & _).
    exists o. split.
    + apply list_elem_of_In, list_elem_of_lookup. eauto.
    + unfold option_error in He. case_bool_decide; [assumption|].
      destruct (200 <? String.length o)%nat; discriminate.
  - case_bool_decide; discriminate.
Qed.

Lemma tails_never_empty_option (id q : string) (opts : list string) (w : World) :
  reliable w ->
  error (fst (run (create_tail q opts) w)) <> Some msg_empty_option
  /\ error (fst (run (update_tail id q opts) w)) <> Some msg_empty_option.
Proof.
  intros Hf. split; unfold_actions; case_split;
    try discriminate;
    match goal with H : faults w _ = Some _ |- _ => rewrite Hf in H; discriminate end.
Qed.

(** C9. Both actions drop the [options] entries that are the empty string
    before they look at the input: the answer and the effect are those for
    the form without these entries. With a backend that answers, the
    empty-option error is only ever answered for an option that is not
    the empty string and is blank once trimmed. And a form whose options,
    the empty strings apart, are two valid ones is accepted, with the two
    options, trimmed, as all that is stored. *)
Theorem C9_empty_options_dropped (fd : FormData.t) (w : World) (pollId : string) :
  reliable w ->
  let c := run (createPoll fd) w in
  let u := run (updatePoll pollId fd) w in
  c = run (createPoll (without_empty_options fd)) w
  /\ u = run (updatePoll pollId (without_empty_options fd)) w
  /\ (error (fst c) = Some msg_empty_option \/ error (fst u) = Some msg_empty_option ->
      exists o, o ∈ FormData.getAll fd "options" /\ o <> "" /\ Js.trim o = "")
  /\ (forall who q a b,
        token_accepted fd w = true -> session w = Some who ->
        question_of fd = Some q -> valid_question q ->
        filter (fun o => o <> "") (FormData.getAll fd "options") = [a; b] ->
        valid_option a -> valid_option b -> Js.trim a <> Js.trim b ->
        fst c = {| error := None |}
        /\ polls (snd c)
           = polls w ++ [{| Poll.id := fresh_id w (issued_ids w);
                            Poll.user_id := User.id who;
                            Poll.question := Js.trim q;
                            Poll.options := [Js.trim a; Js.trim b] |}]
        /\ (forall p, filter (fun x => Poll.id x = pollId) (polls w) = [p] ->
                      Poll.user_id p = User.id who \/ has_admin_role who = true ->
                      fst u = {| error := None |}
                      /\ polls (snd u) = edited pollId q [a; b] <$> polls w)).
Proof.
  intros Hf. cbv zeta.
  destruct (without_empty_options_same fd w pollId) as [Ec Eu].
  split; [exact Ec|]. split; [exact Eu|]. split.
  - assert (Hopt : first_violation (question_of fd) (options_of fd)
                   = Some msg_empty_option ->
                   exists o, o ∈ FormData.getAll fd "options" /\ o <> "" /\ Js.trim o = "").
    { intros H. apply first_violation_empty_option in H as (o & Hin & Ho).
      unfold options_of in Hin. apply filter_In in Hin as [Hin Ht].
      exists o. split; [apply list_elem_of_In, Hin|].
      split; [apply truthy_ne, Ht | exact Ho]. }
    rewrite createPoll_gate, updatePoll_gate, !gate_run.
    destruct (token_accepted fd w).
    2: { intros [H|H]; discriminate H. }
    destruct (first_violation (question_of fd) (options_of fd)) as [e|] eqn:Hv.
    + intros [H|H]; simpl in H; apply Hopt; congruence.
    + destruct (tails_never_empty_option pollId (default "" (question_of fd))
                  (options_of fd) w Hf) as [Nc Nu].
      intros [H|H]; contradiction.
  - intros who q a b Ht Hs Hq Hvq Hopts Ha Hb Hab.
    rewrite <- options_of_nonempty in Hopts.
    assert (Hv : first_violation (question_of fd) (options_of fd) = None).
    { apply first_violation_None. exists q. rewrite Hopts.
      split; [exact Hq|]. split; [exact Hvq|]. split; [simpl; lia|].
      split; [auto using Forall_cons_2, Forall_nil_2|].
      simpl. apply NoDup_cons. split; [|apply NoDup_singleton].
      intros H. apply list_elem_of_singleton in H. contradiction. }
    rewrite (createPoll_passed _ _ Ht Hv), (updatePoll_passed _ _ _ Ht Hv).
    rewrite Hq, Hopts. change (default "" (Some q)) with q.
    destruct (create_tail_ok q [a; b] w who Hs Hf) as (C1 & C2 & _).
    split; [exact C1|]. split; [exact C2|].
    intros p Hp Ho.
    destruct (update_tail_allowed pollId q [a; b] w who p Hs Hf Hp Ho) as (U1 & U2 & _).
    auto.
Qed.

End EmptyOptions.

Lemma C9_witness :
  run (PollActions.createPoll good_form) (issued_world (Some alice))
  = run (PollActions.createPoll
           [ ("csrf_token", first_secret); ("question", " Tea or coffee? ");
             ("options", " tea"); ("options", "coffee ") ])
        (issued_world (Some alice)).
Proof.
  pose proof (proj1 (C9_empty_options_dropped good_form (issued_world (Some alice)) "p1"
                       (fun c => eq_refl))) as H.
  change (without_empty_options good_form)
    with [ ("csrf_token", first_secret); ("question", " Tea or coffee? ");
           ("options", " tea"); ("options", "coffee ") ] in H.
  exact H.
Defined.

Section TrimmedStorage.

Import PollActions.

(** C10. The length limits are checked on the strings as submitted: a
    question of more than 500 characters, and a form with an option of
    more than 200 characters, are turned down by both actions, whatever
    the lengths once trimmed. What is stored is trimmed: the poll a
    successful [createPoll] adds, and every poll a successful [updatePoll]
    rewrites, carries the trimmed question and the trimmed options. *)
Theorem C10_raw_length_trimmed_storage (fd : FormData.t) (w : World) (pollId : string) :
  let c := run (createPoll fd) w in
  let u := run (updatePoll pollId fd) w in
  (forall q, question_of fd = Some q -> 500 < String.length q ->
             rejected w c /\ rejected w u)
  /\ (forall o, o ∈ FormData.getAll fd "options" -> 200 < String.length o ->
                rejected w c /\ rejected w u)
  /\ (error (fst c) = None ->
      exists q who,
        question_of fd = Some q /\ session w = Some who
        /\ polls (snd c)
           = polls w ++ [{| Poll.id := fresh_id w (issued_ids w);
                            Poll.user_id := User.id who;
                            Poll.question := Js.trim q;
                            Poll.options := Js.trim <$> options_of fd |}])
  /\ (error (fst u) = None ->
      exists q,
        question_of fd = Some q
        /\ polls (snd u) = edited pollId q (options_of fd) <$> polls w
        /\ Forall (fun x => Poll.id x = pollId ->
                            Poll.question x = Js.trim q
                            /\ Poll.options x = Js.trim <$> options_of fd)
                  (polls (snd u))).
Proof.
  cbv zeta. split; [|split; [|split]].
  - intros q Hq Hl. apply broken_form_rejected. rewrite first_violation_None.
    intros (q' & Hq' & [_ H] & _). assert (q' = q) by congruence. subst q'. lia.
  - intros o Hin Hl. apply broken_form_rejected. rewrite first_violation_None.
    intros (q & _ & _ & _ & Hall & _).
    assert (Ho : o ∈ options_of fd).
    { rewrite options_of_nonempty. apply list_elem_of_filter. split; [|exact Hin].
      intros ->. simpl in Hl. lia. }
    rewrite Forall_forall in Hall. destruct (Hall o Ho) as [_ H]. lia.
  - intros H. pose proof (createPoll_cases fd w) as C. cbv zeta in C. rewrite H in C.
    destruct C as (q & who & Hq & Hs & _ & Hp & _). exists q, who. auto.
  - intros H. pose proof (updatePoll_cases pollId fd w) as U. cbv zeta in U.
    rewrite H in U. destruct U as (q & Hq & _ & Hp & _). exists q.
    split; [exact Hq|]. split; [exact Hp|].
    rewrite Hp. apply Forall_fmap, Forall_forall. intros x _ Hx. cbn.
    unfold edited in *. case_bool_decide; [split; reflexivity|contradiction].
Qed.

Lemma C10_witness :
  String.length (repeat_string "q" 499 +:+ "  ") = 501
  /\ String.length (Js.trim (repeat_string "q" 499 +:+ "  ")) = 499
  /\ rejected (issued_world (Some alice))
       (run (createPoll padded_question_form) (issued_world (Some alice)))
  /\ rejected (issued_world (Some alice))
       (run (updatePoll "p1" padded_question_form) (issued_world (Some alice))).
Proof.
  split; [vm_compute; reflexivity|]. split; [vm_compute; reflexivity|].
  apply (proj1 (C10_raw_length_trimmed_storage padded_question_form
                  (issued_world (Some alice)) "p1")
           (repeat_string "q" 499 +:+ "  ")).
  - vm_compute. reflexivity.
  - vm_compute. lia.
Defined.

(** The same forms, run: the answers name the length rules. *)
Example padded_question_turned_down :
  run (createPoll padded_question_form) (issued_world (Some alice))
  = ({| error := Some msg_question_long |}, issued_world (Some alice)).
Proof.
  refine (proj1 (gate_turns_down padded_question_form (issued_world (Some alice))
                   "p1" msg_question_long _ _)); vm_compute; reflexivity.
Qed.

Example padded_option_turned_down :
  String.length (Js.trim (repeat_string "y" 200 +:+ " ")) = 200
  /\ run (updatePoll "p1" padded_option_form) (issued_world (Some alice))
     = ({| error := Some msg_option_long |}, issued_world (Some alice)).
Proof.
  split; [vm_compute; reflexivity|].
  refine (proj2 (gate_turns_down padded_option_form (issued_world (Some alice))
                   "p1" msg_option_long _ _)); vm_compute; reflexivity.
Qed.

End TrimmedStorage.

(** ** The actions on sample worlds *)

Section Samples.

Import PollActions.

Lemma C4_witness :
  (fst (run (submitVote "p2" 0 None) (sample_world (Some alice)))
   = {| error := Some msg_already_voted |}
   /\ untouched (sample_world (Some alice))
        (snd (run (submitVote "p2" 0 None) (sample_world (Some alice)))))
  /\ (fst (run (submitVote "p1" 2 None) (sample_world (Some alice))) = {| error := None |}
      /\ votes (snd (run (submitVote "p1" 2 None) (sample_world (Some alice))))
         = [ {| Vote.poll_id := "p2"; Vote.user_id := "alice"; Vote.option_index := 1 |};
             {| Vote.poll_id := "p1"; Vote.user_id := "alice"; Vote.option_index := 2 |} ]).
Proof.
  assert (Inv : one_vote_each (votes (sample_world (Some alice))))
    by (apply (bool_decide_unpack _); vm_compute; exact I).
  split.
  - refine (proj1 (C4_vote_gate (sample_world (Some alice)) alice colour 0 None
                     eq_refl (fun c => eq_refl) eq_refl Inv eq_refl) _).
    intros H. vm_compute in H. discriminate H.
  - refine (proj2 (proj2 (proj2 (proj2
              (C4_vote_gate (sample_world (Some alice)) alice lunch 2 None
                 eq_refl (fun c => eq_refl) eq_refl Inv eq_refl)))) _ _).
    + vm_compute. reflexivity.
    + split; [discriminate | reflexivity].
Defined.

(** The owner deletes a poll: the votes go first. *)
Example owner_deletes :
  let r := run (deletePoll "p2") (sample_world (Some bob)) in
  fst r = {| error := None |}
  /\ polls (snd r) = [lunch]
  /\ votes (snd r) = []
  /\ journal (snd r)
     = [ EvGetUser; EvPollsSelect "user_id" "p2"; EvVotesDelete "p2";
         EvPollsDelete "p2"; EvRevalidatePath "/polls" ].
Proof. vm_compute. auto. Qed.

(** An admin deletes without the ownership look-up. *)
Example admin_deletes :
  let r := run (deletePoll "p2") (sample_world (Some root)) in
  fst r = {| error := None |}
  /\ journal (snd r)
     = [ EvGetUser; EvVotesDelete "p2"; EvPollsDelete "p2"; EvRevalidatePath "/polls" ].
Proof. vm_compute. auto. Qed.

(** The deletion of the votes fails: the poll stays. *)
Example votes_locked_poll_stays :
  let r := run (deletePoll "p2") (votes_locked (sample_world (Some bob))) in
  fst r = {| error := Some "votes are locked" |}
  /\ polls (snd r) = [lunch; colour]
  /\ journal (snd r) = [ EvGetUser; EvPollsSelect "user_id" "p2"; EvVotesDelete "p2" ].
Proof. vm_compute. auto. Qed.

(** A vote without a token is taken; one with a stale token is not. *)
Example vote_without_token :
  fst (run (submitVote "p1" 0 None) (sample_world (Some bob))) = {| error := None |}
  /\ fst (run (submitVote "p1" 0 (Some "stale")) (issued_world (Some bob)))
     = {| error := Some invalid_token |}
  /\ fst (run (submitVote "p1" 3 None) (sample_world (Some bob)))
     = {| error := Some msg_invalid_option |}
  /\ fst (run (submitVote "p1" (-1) None) (sample_world (Some bob)))
     = {| error := Some msg_invalid_option |}.
Proof. vm_compute. auto. Qed.

(** A second vote of the same identity keeps the table as it is. *)
Lemma submitVote_keeps_invariant (pollId : string) (optionIndex : Z)
  (csrfToken : option string) (w : World) :
  one_vote_each (votes w) ->
  one_vote_each (votes (snd (run (submitVote pollId optionIndex csrfToken) w))).
Proof.
  intros Hinv. unfold run, submitVote. unfold bind at 1.
  rewrite token_given_and_invalid_run.
  destruct (match csrfToken with
            | Some t => Js.truthy t && negb (valid_in (cookies w) t)
            | None => false
            end); [exact Hinv|].
  unfold_actions. case_split; try exact Hinv;
    match goal with
    | H : filter _ (votes w) = [] |- _ => rename H into Hnone
    | H : filter _ (votes w) = _ :: _ |- _ => exfalso; clear H
    end.
  - unfold one_vote_each. rewrite fmap_app. apply NoDup_app. split; [exact Hinv|].
    split; [|apply NoDup_singleton].
    intros k Hk Hk'. apply list_elem_of_singleton in Hk'. subst k.
    apply list_elem_of_fmap in Hk as (v & Hv & Hin).
    refine (filter_nil_not_elem_of _ _ v Hnone _ Hin).
    unfold vote_key in Hv. cbn in Hv. split; congruence.
  - match goal with
    | H : bool_decide (is_Some (Some _)) = false |- _ => vm_compute in H; discriminate H
    end.
Qed.

End Samples.

(** * Further properties of the code *)

(** ** Trimming *)

Section Trimming.

Lemma trimStart_length (s : string) : String.length (Js.trimStart s) <= String.length s.
Proof.
  induction s as [|c r IH]; [reflexivity|].
  cbn [Js.trimStart]. destruct (Js.is_whitespace c); simpl in *; lia.
Qed.

Lemma trimEnd_length (s : string) : String.length (Js.trimEnd s) <= String.length s.
Proof.
  induction s as [|c r IH]; [reflexivity|].
  cbn [Js.trimEnd]. destruct (Js.trimEnd r) as [|c' r'].
  - destruct (Js.is_whitespace c); simpl; lia.
  - simpl in *. lia.
Qed.

Lemma trim_length (s : string) : String.length (Js.trim s) <= String.length s.
Proof.
  unfold Js.trim. pose proof (trimEnd_length (Js.trimStart s)).
  pose proof (trimStart_length s). lia.
Qed.

Lemma trimEnd_cons (c : ascii) (r : string) :
  Js.trimEnd (String c r)
  = match Js.trimEnd r with
    | EmptyString => if Js.is_whitespace c then EmptyString else String c EmptyString
    | r' => String c r'
    end.
Proof. reflexivity. Qed.

Lemma trimEnd_trimEnd (s : string) : Js.trimEnd (Js.trimEnd s) = Js.trimEnd s.
Proof.
  induction s as [|c r IH]; [reflexivity|].
  rewrite (trimEnd_cons c r). destruct (Js.trimEnd r) as [|c' r'] eqn:E.
  - destruct (Js.is_whitespace c) eqn:W; [reflexivity|].
    rewrite trimEnd_cons. cbn [Js.trimEnd]. rewrite W. reflexivity.
  - rewrite (trimEnd_cons c (String c' r')), IH. reflexivity.
Qed.

Lemma trimStart_clean (s : string) : starts_clean (Js.trimStart s).
Proof.
  induction s as [|c r IH]; [exact I|].
  cbn [Js.trimStart]. destruct (Js.is_whitespace c) eqn:W; [exact IH|exact W].
Qed.

Lemma trimStart_of_clean (s : string) : starts_clean s -> Js.trimStart s = s.
Proof. destruct s as [|c r]; [reflexivity|]. simpl. intros ->. reflexivity. Qed.

Lemma trimEnd_clean (s : string) : starts_clean s -> starts_clean (Js.trimEnd s).
Proof.
  destruct s as [|c r]; [auto|]. cbn [Js.trimEnd starts_clean]. intros W.
  destruct (Js.trimEnd r); [rewrite W|]; exact W.
Qed.

(** Trimming what is trimmed changes nothing. *)
Lemma trim_trim (s : string) : Js.trim (Js.trim s) = Js.trim s.
Proof.
  unfold Js.trim.
  rewrite (trimStart_of_clean (Js.trimEnd (Js.trimStart s)))
    by apply trimEnd_clean, trimStart_clean.
  apply trimEnd_trimEnd.
Qed.

Lemma trim_tidy (limit : nat) (s : string) :
  Js.trim s <> "" -> String.length s <= limit -> tidy limit (Js.trim s).
Proof.
  intros Hn Hl. split; [exact Hn|]. split; [apply trim_trim|].
  pose proof (trim_length s). lia.
Qed.

End Trimming.

(** ** Every way the writing actions can end *)

Section Outcomes.

Import PollActions.

(** [deletePoll] ends in one of three ways: nothing changed and an error;
    the votes of the poll gone, the poll still there and an error, which
    takes a failing deletion of the poll; or both gone and no error. *)
Lemma deletePoll_cases (id : string) (w : World) :
  let r := run (deletePoll id) w in
  cookies (snd r) = cookies w
  /\ ((error (fst r) <> None /\ polls (snd r) = polls w /\ votes (snd r) = votes w)
      \/ (error (fst r) <> None /\ faults w PollsDelete <> None
          /\ polls (snd r) = polls w /\ votes (snd r) = votes_but id (votes w))
      \/ (error (fst r) = None
          /\ polls (snd r) = polls_but id (polls w)
          /\ votes (snd r) = votes_but id (votes w))).
Proof.
  unfold votes_but, polls_but. unfold_actions. case_split;
    (split; [reflexivity|]);
    first [ left; repeat split; solve [discriminate | reflexivity]
          | right; left; repeat split; solve [discriminate | reflexivity | congruence]
          | right; right; repeat split; reflexivity ].
Qed.

(** A token that [submitVote] turns down ends the action; any other is as
    good as none. *)
Lemma submitVote_token (pollId : string) (optionIndex : Z) (tok : option string)
  (w : World) :
  run (submitVote pollId optionIndex tok) w
  = if match tok with
       | Some t => Js.truthy t && negb (valid_in (cookies w) t)
       | None => false
       end
    then ({| error := Some invalid_token |}, w)
    else run (submitVote pollId optionIndex None) w.
Proof.
  unfold run, submitVote.
  rewrite (bind_next _ _ _ _ _ (token_given_and_invalid_run tok w)).
  rewrite (bind_next _ _ _ _ _ (token_given_and_invalid_run None w)).
  destruct (match tok with
            | Some t => Js.truthy t && negb (valid_in (cookies w) t)
            | None => false
            end); reflexivity.
Qed.

(** [submitVote] ends in one of two ways: nothing changed and an error, or
    no error and one more vote: of the signed-in identity, who had none on
    this poll, for an option of the one poll with this id. *)
Lemma submitVote_cases (pollId : string) (optionIndex : Z) (tok : option string)
  (w : World) :
  let r := run (submitVote pollId optionIndex tok) w in
  cookies (snd r) = cookies w /\ polls (snd r) = polls w
  /\ ((error (fst r) <> None /\ votes (snd r) = votes w)
      \/ (error (fst r) = None
          /\ exists u p,
               session w = Some u
               /\ votes_of pollId (User.id u) (votes w) = []
               /\ filter (fun x => Poll.id x = pollId) (polls w) = [p]
               /\ (0 <= optionIndex < Z.of_nat (length (Poll.options p)))%Z
               /\ votes (snd r)
                  = votes w ++ [{| Vote.poll_id := pollId; Vote.user_id := User.id u;
                                   Vote.option_index := optionIndex |}])).
Proof.
  cbv zeta. rewrite submitVote_token.
  destruct (match tok with
            | Some t => Js.truthy t && negb (valid_in (cookies w) t)
            | None => false
            end).
  { cbn. split; [reflexivity|]. split; [reflexivity|]. left. split; [discriminate|reflexivity]. }
  unfold submitVote, token_given_and_invalid.
  unfold votes_of. unfold_actions. case_split;
    (split; [reflexivity|]); (split; [reflexivity|]);
    first [ left; split; solve [discriminate | reflexivity]
          | right; split; [reflexivity|] ].
  all: match goal with
       | H : bool_decide (is_Some (Some _)) = false |- _ => vm_compute in H; discriminate H
       | _ => idtac
       end.
  match goal with
  | Hs : session w = Some ?u, Hp : filter _ (polls w) = [?p], Hb : (_ || _) = false |- _ =>
      exists u, p; apply orb_false_iff in Hb as [Hb1 Hb2];
      apply Z.ltb_ge in Hb1;
      assert (optionIndex < Z.of_nat (length (Poll.options p)))%Z
        by (destruct (optionIndex >=? Z.of_nat (length (Poll.options p)))%Z eqn:G;
            [discriminate | rewrite Z.geb_leb in G; apply Z.leb_gt in G; exact G])
  end.
  repeat split; try assumption; try reflexivity; try lia.
Qed.

End Outcomes.

(** ** What the writing actions keep *)

Section Kept.

Import PollActions.

Lemma accepted_input_well_formed (q : string) (opts : list string) (id owner : string) :
  first_violation (Some q) opts = None ->
  well_formed {| Poll.id := id; Poll.user_id := owner;
                 Poll.question := Js.trim q; Poll.options := Js.trim <$> opts |}.
Proof.
  intros H. apply first_violation_None in H as (q' & [= <-] & [Hq Hl] & Hn & Ho & Hd).
  unfold well_formed. cbn. split; [apply trim_tidy; assumption|].
  split; [rewrite length_fmap; exact Hn|]. split; [|exact Hd].
  apply Forall_fmap. eapply Forall_impl; [exact Ho|].
  intros o [Ht Hlo]. apply trim_tidy; assumption.
Qed.

(** The polls of the table stay as the data model wants them: whatever a
    writing action is given and however it ends, if every poll was well
    formed before, every poll is well formed after. *)
Theorem polls_stay_well_formed (m : Mutation) (w : World) :
  Forall well_formed (polls w) ->
  Forall well_formed (polls (snd (perform m w))).
Proof.
  intros Hwf. destruct m as [fd|pollId fd|id|pollId optionIndex tok]; cbn [perform].
  - pose proof (createPoll_cases fd w) as C. cbv zeta in C.
    destruct (error (fst (run (createPoll fd) w))).
    + destruct C as (-> & _). exact Hwf.
    + destruct C as (q & u & Hq & _ & Hv & -> & _).
      apply Forall_app. split; [exact Hwf|]. apply Forall_singleton.
      unfold new_poll. apply accepted_input_well_formed. rewrite <- Hq. exact Hv.
  - pose proof (updatePoll_cases pollId fd w) as U. cbv zeta in U.
    destruct (error (fst (run (updatePoll pollId fd) w))).
    + destruct U as (-> & _). exact Hwf.
    + destruct U as (q & Hq & Hv & -> & _).
      apply Forall_fmap. eapply Forall_impl; [exact Hwf|].
      intros x Hx. cbn. unfold edited. case_bool_decide; [|exact Hx].
      apply accepted_input_well_formed. rewrite <- Hq. exact Hv.
  - destruct (deletePoll_cases id w) as (_ & [(_ & -> & _)|[(_ & _ & -> & _)|(_ & -> & _)]]);
      [exact Hwf | exact Hwf |].
    unfold polls_but. apply Forall_forall. intros x Hx.
    apply list_elem_of_filter in Hx as [_ Hx]. rewrite Forall_forall in Hwf. auto.
  - destruct (submitVote_cases pollId optionIndex tok w) as (_ & -> & _). exact Hwf.
Qed.

Lemma polls_stay_well_formed_witness :
  Forall well_formed (polls (snd (perform (CreatePoll good_form)
                                    (issued_world (Some alice))))).
Proof.
  apply polls_stay_well_formed.
  apply (bool_decide_unpack _). vm_compute. exact I.
Defined.

(** Every vote keeps a poll to be for: whatever a writing action is given
    and however it ends. [deletePoll] owes this to deleting the votes
    before the poll. *)
Theorem votes_keep_their_polls (m : Mutation) (w : World) :
  votes_refer_to_polls w ->
  votes_refer_to_polls (snd (perform m w)).
Proof.
  unfold votes_refer_to_polls. intros Href.
  destruct m as [fd|pollId fd|id|pollId optionIndex tok]; cbn [perform].
  - pose proof (createPoll_cases fd w) as C. cbv zeta in C.
    destruct (error (fst (run (createPoll fd) w))).
    + destruct C as (-> & -> & _). exact Href.
    + destruct C as (q & u & _ & _ & _ & -> & ->).
      eapply Forall_impl; [exact Href|]. intros v Hv. cbn in *.
      apply Exists_app. left. exact Hv.
  - pose proof (updatePoll_cases pollId fd w) as U. cbv zeta in U.
    destruct (error (fst (run (updatePoll pollId fd) w))).
    + destruct U as (-> & -> & _). exact Href.
    + destruct U as (q & _ & _ & -> & ->).
      eapply Forall_impl; [exact Href|]. intros v Hv. cbn in *.
      apply Exists_fmap. eapply Exists_impl; [exact Hv|].
      intros x Hx. cbn. unfold edited. case_bool_decide; exact Hx.
  - destruct (deletePoll_cases id w)
      as (_ & [(_ & -> & ->)|[(_ & _ & -> & ->)|(_ & -> & ->)]]); [exact Href| |].
    + unfold votes_but. apply Forall_forall. intros v Hv.
      apply list_elem_of_filter in Hv as [_ Hv]. rewrite Forall_forall in Href. auto.
    + unfold votes_but, polls_but. apply Forall_forall. intros v Hv.
      apply list_elem_of_filter in Hv as [Hne Hv]. rewrite Forall_forall in Href.
      specialize (Href v Hv). cbn in Href. apply Exists_exists in Href as (x & Hx & Hid).
      apply Exists_exists. exists x. split; [|exact Hid].
      apply list_elem_of_filter. split; [congruence|exact Hx].
  - destruct (submitVote_cases pollId optionIndex tok w)
      as (_ & -> & [(_ & ->)|(_ & u & p & _ & _ & Hp & _ & ->)]); [exact Href|].
    apply Forall_app. split; [exact Href|]. apply Forall_singleton. cbn.
    apply Exists_exists. exists p.
    assert (Hin : p ∈ filter (fun x => Poll.id x = pollId) (polls w))
      by (rewrite Hp; left).
    apply list_elem_of_filter in Hin as [Hid Hin]. auto.
Qed.

Lemma votes_keep_their_polls_witness :
  votes_refer_to_polls (snd (perform (DeletePoll "p2") (sample_world (Some bob)))).
Proof.
  apply votes_keep_their_polls.
  apply (bool_decide_unpack _). vm_compute. exact I.
Defined.

(** No identity gets a second vote on a poll: whatever a writing action is
    given and however it ends, a table with at most one vote per poll and
    identity stays one. *)
Theorem one_vote_each_kept (m : Mutation) (w : World) :
  one_vote_each (votes w) ->
  one_vote_each (votes (snd (perform m w))).
Proof.
  intros Hinv. destruct m as [fd|pollId fd|id|pollId optionIndex tok]; cbn [perform].
  - pose proof (createPoll_cases fd w) as C. cbv zeta in C.
    destruct (error (fst (run (createPoll fd) w))).
    + destruct C as (_ & -> & _). exact Hinv.
    + destruct C as (q & u & _ & _ & _ & _ & ->). exact Hinv.
  - pose proof (updatePoll_cases pollId fd w) as U. cbv zeta in U.
    destruct (error (fst (run (updatePoll pollId fd) w))).
    + destruct U as (_ & -> & _). exact Hinv.
    + destruct U as (q & _ & _ & _ & ->). exact Hinv.
  - destruct (deletePoll_cases id w)
      as (_ & [(_ & _ & ->)|[(_ & _ & _ & ->)|(_ & _ & ->)]]); [exact Hinv| |];
      unfold one_vote_each, votes_but in *;
      (eapply sublist_NoDup; [exact Hinv | apply fmap_sublist, sublist_filter]).
  - apply submitVote_keeps_invariant, Hinv.
Qed.

Lemma one_vote_each_kept_witness :
  one_vote_each (votes (snd (perform (SubmitVote "p1" 0 None) (sample_world (Some alice))))).
Proof.
  apply one_vote_each_kept.
  apply (bool_decide_unpack _). vm_compute. exact I.
Defined.

Lemma update_tail_signed_out (id q : string) (opts : list string) (w : World) :
  session w = None ->
  error (fst (run (update_tail id q opts) w)) <> None.
Proof. intros Hs. unfold_actions. rewrite ?Hs. case_split; discriminate. Qed.

(** Without a signed-in identity nothing is written: each of the four
    writing actions answers an error and leaves the tables and the jar as
    they are, whatever it is given and whatever the backend does. *)
Theorem signed_out_writes_nothing (m : Mutation) (w : World) :
  session w = None ->
  rejected w (perform m w).
Proof.
  intros Hs. unfold rejected, untouched.
  destruct m as [fd|pollId fd|id|pollId optionIndex tok]; cbn [perform].
  - pose proof (createPoll_cases fd w) as C. cbv zeta in C.
    destruct (error (fst (run (createPoll fd) w))).
    + split; [discriminate|exact C].
    + destruct C as (q & u & _ & Hu & _). congruence.
  - pose proof (updatePoll_cases pollId fd w) as U. cbv zeta in U.
    destruct (error (fst (run (updatePoll pollId fd) w))) eqn:E.
    + split; [discriminate|exact U].
    + exfalso. revert E. rewrite updatePoll_gate, gate_run.
      destruct (token_accepted fd w); [|discriminate].
      destruct (first_violation (question_of fd) (options_of fd)); [discriminate|].
      apply update_tail_signed_out, Hs.
  - unfold_actions. rewrite ?Hs. case_split; repeat split; discriminate.
  - destruct (submitVote_cases pollId optionIndex tok w)
      as (Hc & Hp & [(He & Hv)|(_ & u & p & Hu & _)]); [auto|congruence].
Qed.

Lemma signed_out_writes_nothing_witness :
  rejected (issued_world None) (perform (CreatePoll good_form) (issued_world None)).
Proof. apply signed_out_writes_nothing. reflexivity. Defined.

(** An error means nothing was written, with one exception. When
    [createPoll], [updatePoll] or [submitVote] answers an error, the
    tables are as before. When [deletePoll] answers an error, the polls
    are as before, and the votes are too unless the deletion of the poll
    itself failed: then the votes of the poll are gone and the poll is not. *)
Theorem errors_write_nothing_but (m : Mutation) (w : World) :
  error (fst (perform m w)) <> None ->
  polls (snd (perform m w)) = polls w
  /\ cookies (snd (perform m w)) = cookies w
  /\ (votes (snd (perform m w)) = votes w
      \/ exists id, m = DeletePoll id
                    /\ faults w PollsDelete <> None
                    /\ votes (snd (perform m w)) = votes_but id (votes w)).
Proof.
  destruct m as [fd|pollId fd|id|pollId optionIndex tok]; cbn [perform]; intros He.
  - pose proof (createPoll_cases fd w) as C. cbv zeta in C.
    destruct (error (fst (run (createPoll fd) w))); [|contradiction].
    destruct C as (Hp & Hv & Hc). auto.
  - pose proof (updatePoll_cases pollId fd w) as U. cbv zeta in U.
    destruct (error (fst (run (updatePoll pollId fd) w))); [|contradiction].
    destruct U as (Hp & Hv & Hc). auto.
  - destruct (deletePoll_cases id w)
      as (Hc & [(_ & Hp & Hv)|[(_ & Hf & Hp & Hv)|(Hn & _)]]);
      [auto | | contradiction].
    split; [exact Hp|]. split; [exact Hc|]. right. exists id. auto.
  - destruct (submitVote_cases pollId optionIndex tok w)
      as (Hc & Hp & [(_ & Hv)|(Hn & _)]); [auto|contradiction].
Qed.

Lemma errors_write_nothing_but_witness :
  polls (snd (perform (DeletePoll "p2") (votes_locked (sample_world (Some bob)))))
  = [lunch; colour].
Proof.
  refine (proj1 (errors_write_nothing_but (DeletePoll "p2")
                   (votes_locked (sample_world (Some bob))) _)).
  vm_compute. discriminate.
Defined.

(** [updatePoll] rewrites the question and the options and nothing else:
    however it ends, the table has the same rows in the same order, each
    with the id and the owner it had, every row with another id is as it
    was, and no vote is touched. *)
Theorem updatePoll_keeps_owners (pollId : string) (fd : FormData.t) (w : World) :
  let r := run (updatePoll pollId fd) w in
  Forall2 (fun before after =>
             Poll.id after = Poll.id before
             /\ Poll.user_id after = Poll.user_id before
             /\ (Poll.id before <> pollId -> after = before))
          (polls w) (polls (snd r))
  /\ votes (snd r) = votes w.
Proof.
  cbv zeta. pose proof (updatePoll_cases pollId fd w) as U. cbv zeta in U.
  destruct (error (fst (run (updatePoll pollId fd) w))).
  - destruct U as (-> & -> & _). split; [|reflexivity].
    apply Forall2_same_length_lookup. split; [reflexivity|].
    intros i x y Hx Hy. assert (y = x) by congruence. subst y. auto.
  - destruct U as (q & _ & _ & -> & ->). split; [|reflexivity].
    apply Forall2_fmap_r, Forall_Forall2_diag, Forall_forall. intros x _.
    unfold edited, compose. cbv beta.
    destruct (decide (Poll.id x = pollId)) as [E|E].
    + rewrite bool_decide_eq_true_2 by exact E. cbn.
      split; [reflexivity|]. split; [reflexivity|]. intros Hne. contradiction.
    + rewrite bool_decide_eq_false_2 by exact E. auto.
Qed.



End Kept.

(** ** The read actions *)

Section Reading.

Import PollQueries.

(** [getPollById] asks no one who they are. Signed in or not, and whoever
    is signed in, it makes the same single call and gives the same answer:
    the poll when exactly one row has the id and the call does not fail,
    an error and no poll otherwise. It writes nothing. *)
Theorem getPollById_is_public (id : string) (w : World) :
  exists r,
    getPollById id w = (Next r, with_journal (journal w ++ [EvPollsSelect "*" id]) w)
    /\ (forall who,
          getPollById id (with_session who w)
          = (Next r, with_journal (journal w ++ [EvPollsSelect "*" id])
                       (with_session who w)))
    /\ (forall p, PollResult.poll r = Some p <->
                  faults w PollsSelect = None
                  /\ filter (fun x => Poll.id x = id) (polls w) = [p])
    /\ (PollResult.poll r = None <-> PollResult.error r <> None).
Proof.
  unfold getPollById, Backend.polls_select, Backend.single, emit, bind, pure.
  cbn [faults journal polls with_journal with_session].
  destruct (faults w PollsSelect) as [e|] eqn:F.
  - eexists. split; [reflexivity|]. split; [reflexivity|]. cbn. split.
    + intros p. split; [discriminate|]. intros [H _]. discriminate.
    + split; [discriminate|reflexivity].
  - destruct (filter (fun x => Poll.id x = id) (polls w)) as [|p [|p' rest]] eqn:E;
      (eexists; split; [reflexivity|]; split; [reflexivity|]; cbn; split;
       [intros p0; split; [intros [= <-]; auto | intros [_ [= <-]]; reflexivity]
       | split; (discriminate || (intros H; exfalso; apply H; reflexivity)
                 || (intros _; discriminate) || reflexivity) ]).
Qed.

Section ByAge.

Variable created_at : Poll.t -> Z.

Lemma insert_by_age_perm (p : Poll.t) (l : list Poll.t) :
  insert_by_age created_at p l ≡ₚ p :: l.
Proof.
  induction l as [|q l IH]; [reflexivity|]. cbn [insert_by_age].
  destruct (created_at q <=? created_at p)%Z; [reflexivity|].
  rewrite IH. apply Permutation_swap.
Qed.

Lemma newest_first_perm (l : list Poll.t) : newest_first created_at l ≡ₚ l.
Proof.
  induction l as [|p l IH]; [reflexivity|]. cbn [newest_first foldr].
  rewrite insert_by_age_perm. fold (newest_first created_at l). rewrite IH. reflexivity.
Qed.

Lemma insert_by_age_descending (p : Poll.t) (l : list Poll.t) :
  descending created_at l -> descending created_at (insert_by_age created_at p l).
Proof.
  induction l as [|q l IH]; [cbn; auto|]. cbn [insert_by_age descending].
  intros [Hq Hl]. destruct (created_at q <=? created_at p)%Z eqn:C.
  - apply Z.leb_le in C. cbn [descending]. split; [|auto].
    constructor; [exact C|]. eapply Forall_impl; [exact Hq|]. cbn. intros. lia.
  - apply Z.leb_gt in C. cbn [descending]. split; [|auto].
    rewrite insert_by_age_perm. constructor; [lia|exact Hq].
Qed.

Lemma newest_first_descending (l : list Poll.t) :
  descending created_at (newest_first created_at l).
Proof.
  induction l as [|p l IH]; [exact I|]. cbn [newest_first foldr].
  apply insert_by_age_descending, IH.
Qed.

Lemma descending_newest_to_oldest (l : list Poll.t) :
  descending created_at l -> newest_to_oldest created_at l.
Proof.
  unfold newest_to_oldest. induction l as [|x l IH]; intros Hd i j a b Hij Ha Hb.
  - discriminate.
  - destruct Hd as [Hx Hl]. destruct j as [|j]; [lia|]. cbn in Hb.
    destruct i as [|i].
    + cbn in Ha. injection Ha as <-. rewrite Forall_forall in Hx. apply Hx.
      apply list_elem_of_lookup. eauto.
    + cbn in Ha. apply (IH Hl i j); [lia|assumption|assumption].
Qed.

(** [getUserPolls] lists the polls of the signed-in identity and no
    others: with no identity (or none the auth service will name) the list
    is empty and the error says so; otherwise, the query answering, the
    list holds exactly the rows the identity owns, the newest first. It
    never lists a poll of someone else, and it writes nothing. *)
Theorem getUserPolls_lists_own_polls (w : World) :
  exists r w',
    getUserPolls created_at w = (Next r, w')
    /\ untouched w w'
    /\ Forall (fun p => p ∈ polls w
                        /\ exists u, session w = Some u /\ Poll.user_id p = User.id u)
              (PollsResult.polls r)
    /\ (session w = None \/ faults w AuthGetUser <> None ->
        r = {| PollsResult.polls := []; PollsResult.error := Some "Not authenticated" |})
    /\ (forall u, session w = Some u -> faults w AuthGetUser = None ->
                  faults w PollsSelect = None ->
                  PollsResult.error r = None
                  /\ PollsResult.polls r
                     ≡ₚ filter (fun p => Poll.user_id p = User.id u) (polls w)
                  /\ newest_to_oldest created_at (PollsResult.polls r)).
Proof.
  unfold getUserPolls, polls_select_by_user, Backend.auth_getUser, emit, bind, pure,
    untouched.
  cbn [faults journal polls session with_journal].
  destruct (faults w AuthGetUser) as [e|] eqn:Fa.
  { eexists _, _. split; [reflexivity|]. cbn. split; [auto|]. split; [constructor|].
    split; [reflexivity|]. intros; discriminate. }
  destruct (session w) as [u|] eqn:Hs.
  2: { eexists _, _. split; [reflexivity|]. cbn. split; [auto|]. split; [constructor|].
       split; [reflexivity|]. intros; discriminate. }
  cbn [faults journal polls session with_journal].
  destruct (faults w PollsSelect) as [e|] eqn:Fp.
  { eexists _, _. split; [reflexivity|]. cbn. split; [auto|]. split; [constructor|].
    split; [intros [H|H]; [discriminate|contradiction]|]. intros; discriminate. }
  eexists _, _. split; [reflexivity|]. cbn. split; [auto|]. split; [|split].
  - apply Forall_forall. intros p Hp. rewrite newest_first_perm in Hp.
    apply list_elem_of_filter in Hp as [Ho Hp]. eauto.
  - intros [H|H]; [discriminate|contradiction].
  - intros u' [= <-] _ _. split; [reflexivity|]. split; [apply newest_first_perm|].
    apply descending_newest_to_oldest, newest_first_descending.
Qed.

End ByAge.

End Reading.

(** ** More on the token service *)

Section Issuance.

Import Csrf.

Lemma nibble_range (x : Z) : (0 <= Z.land x 15 < 16)%Z.
Proof. change 15%Z with (Z.ones 4). rewrite Z.land_ones by lia. apply Z.mod_pos_bound. lia. Qed.

Lemma hex_digit_lower (n : Z) : (0 <= n < 16)%Z -> is_lower_hex (Encoding.hex_digit n) = true.
Proof.
  intros H. unfold is_lower_hex, Encoding.hex_digit.
  destruct (n <? 10)%Z eqn:C; [apply Z.ltb_lt in C | apply Z.ltb_ge in C];
    rewrite nat_ascii_embedding by lia; cbv zeta; apply orb_true_iff; [left | right];
    apply andb_true_iff; split; apply Nat.leb_le; lia.
Qed.

Lemma hex_digit_inj (m n : Z) :
  (0 <= m < 16)%Z -> (0 <= n < 16)%Z ->
  Encoding.hex_digit m = Encoding.hex_digit n -> m = n.
Proof.
  intros Hm Hn H. apply (f_equal nat_of_ascii) in H. revert H.
  unfold Encoding.hex_digit.
  destruct (m <? 10)%Z eqn:Cm, (n <? 10)%Z eqn:Cn;
    try apply Z.ltb_lt in Cm; try apply Z.ltb_ge in Cm;
    try apply Z.ltb_lt in Cn; try apply Z.ltb_ge in Cn;
    rewrite !nat_ascii_embedding by lia; lia.
Qed.

Lemma hex_lower (bs : list Z) : all_chars is_lower_hex (Encoding.hex bs) = true.
Proof.
  induction bs as [|b bs IH]; [reflexivity|]. cbn [Encoding.hex all_chars].
  rewrite !hex_digit_lower by apply nibble_range. exact IH.
Qed.

Lemma byte_of_nibbles (b : Z) :
  (0 <= b < 256)%Z -> b = (16 * Z.land (Z.shiftr b 4) 15 + Z.land b 15)%Z.
Proof.
  intros H. change 15%Z with (Z.ones 4). rewrite !Z.land_ones by lia.
  rewrite Z.shiftr_div_pow2 by lia. change (2 ^ 4)%Z with 16%Z.
  rewrite (Z.mod_small (b / 16) 16) by (split; [apply Z.div_pos; lia | apply Z.div_lt_upper_bound; lia]).
  apply Z.div_mod. lia.
Qed.

Lemma hex_inj (l1 l2 : list Z) :
  Forall (fun b => (0 <= b < 256)%Z) l1 -> Forall (fun b => (0 <= b < 256)%Z) l2 ->
  Encoding.hex l1 = Encoding.hex l2 -> l1 = l2.
Proof.
  intros H1. revert l2. induction H1 as [|a l1 Ha H1 IH]; intros l2 H2 E.
  - destruct l2; [reflexivity|discriminate].
  - destruct H2 as [|b l2 Hb H2]; [discriminate|].
    cbn [Encoding.hex] in E. injection E as Ehi Elo Erest.
    apply hex_digit_inj in Ehi; [|apply nibble_range..].
    apply hex_digit_inj in Elo; [|apply nibble_range..].
    f_equal; [|apply IH; assumption].
    rewrite (byte_of_nibbles a Ha), (byte_of_nibbles b Hb). congruence.
Qed.

Lemma next_draw_bytes (w : World) : Forall (fun b => (0 <= b < 256)%Z) (next_draw w).
Proof.
  unfold next_draw. apply Forall_fmap, Forall_forall. intros i _. cbn.
  unfold random_byte. change 255%Z with (Z.ones 8). rewrite Z.land_ones by lia.
  apply Z.mod_pos_bound. lia.
Qed.

(** Two issuances hand out the same secret only if they drew the same 32
    bytes: the hexadecimal form loses nothing. *)
Theorem secrets_tell_draws_apart (w1 w2 : World) :
  fst (generateCSRFToken w1) = fst (generateCSRFToken w2) <-> next_draw w1 = next_draw w2.
Proof.
  rewrite !generateCSRFToken_run. cbn [fst]. fold (next_draw w1) (next_draw w2). split.
  - intros E.
    apply (f_equal (fun o => match o with Next s => s | Returned _ => EmptyString end)) in E.
    cbv beta iota in E. apply hex_inj in E; auto using next_draw_bytes.
  - intros ->. reflexivity.
Qed.

(** An issuance hands out 64 hexadecimal digits in lower case and stores
    their digest, itself 64 characters, under [csrf_token], a cookie that
    scripts cannot read, good for a day on the whole site and bound to
    secure transport in production. No other cookie is touched, and
    neither are the tables, the session or the journal. *)
Theorem issuance_touches_only_its_cookie (w : World) :
  exists s w',
    setCSRFToken w = (Next s, w')
    /\ String.length s = 64 /\ all_chars is_lower_hex s = true
    /\ cookies w' !! CSRF_COOKIE_NAME
       = Some {| Cookie.value := sha256_hex s; Cookie.httpOnly := true;
                 Cookie.secure := bool_decide (node_env w = "production");
                 Cookie.sameSite := "lax"; Cookie.path := "/"; Cookie.maxAge := 86400 |}
    /\ String.length (sha256_hex s) = 64
    /\ (forall name, name <> CSRF_COOKIE_NAME -> cookies w' !! name = cookies w !! name)
    /\ polls w' = polls w /\ votes w' = votes w
    /\ session w' = session w /\ journal w' = journal w.
Proof.
  eexists _, _. split; [apply setCSRFToken_run|].
  cbn [cookies polls votes session journal with_cookies with_entropy_pos].
  split; [rewrite hex_length, length_fmap, length_seq; reflexivity|].
  split; [apply hex_lower|].
  split; [rewrite lookup_insert_eq; reflexivity|].
  split; [apply hashToken_length|].
  split; [|auto]. intros name Hn. rewrite lookup_insert_ne by congruence. reflexivity.
Qed.

End Issuance.

(** ** The guard of the requests *)

Section Guard.

Import CsrfGuard.

Lemma lowercase_lowercase (s : string) : Http.lowercase (Http.lowercase s) = Http.lowercase s.
Proof.
  induction s as [|c r IH]; [reflexivity|]. cbn [Http.lowercase]. rewrite IH. f_equal.
  unfold Http.lower_ascii.
  destruct ((65 <=? nat_of_ascii c)%nat && (nat_of_ascii c <=? 90)%nat) eqn:C.
  - apply andb_true_iff in C as [C1 C2]. apply Nat.leb_le in C1, C2.
    rewrite nat_ascii_embedding by lia.
    destruct ((65 <=? nat_of_ascii c + 32)%nat && (nat_of_ascii c + 32 <=? 90)%nat) eqn:D;
      [|reflexivity].
    apply andb_true_iff in D as [_ D]. apply Nat.leb_le in D. lia.
  - rewrite C. reflexivity.
Qed.

Lemma headers_get_lowercase_names (h : Http.Headers) (name : string) :
  Http.headers_get ((fun e => (Http.lowercase (fst e), snd e)) <$> h) name
  = Http.headers_get h name.
Proof.
  unfold Http.headers_get.
  assert (E : snd <$> filter (fun e => Http.lowercase (fst e) = Http.lowercase name)
                        ((fun e => (Http.lowercase (fst e), snd e)) <$> h)
              = snd <$> filter (fun e => Http.lowercase (fst e) = Http.lowercase name) h).
  { induction h as [|[k v] h IH]; [reflexivity|].
    rewrite fmap_cons, !filter_cons. cbn [fst snd]. rewrite lowercase_lowercase.
    destruct (decide (Http.lowercase k = Http.lowercase name)); [|exact IH].
    rewrite !fmap_cons, IH. reflexivity. }
  destruct (filter _ ((fun e => (Http.lowercase (fst e), snd e)) <$> h)) as [|x l] eqn:F1;
    destruct (filter _ h) as [|y l'] eqn:F2; try discriminate E; [reflexivity|].
  rewrite E. reflexivity.
Qed.

Lemma csrfProtection_run (request : Http.Request) (w : World) :
  csrfProtection request w
  = (Next (safe_method_pattern (Http.method request)
           || match Http.headers_get (Http.headers request) Csrf.CSRF_HEADER_NAME with
              | Some t => valid_in (cookies w) t
              | None => false
              end), w).
Proof.
  unfold csrfProtection. destruct (safe_method_pattern (Http.method request)); [reflexivity|].
  cbn [orb]. destruct (Http.headers_get _ _) as [t|]; [|reflexivity].
  destruct (Js.truthy t) eqn:T; [apply validateCSRFToken_run|].
  unfold valid_in, pure. destruct (cookies w !! Csrf.CSRF_COOKIE_NAME); [|reflexivity].
  rewrite T, andb_false_r. reflexivity.
Qed.

(** [csrfProtection] only looks. It lets a request pass exactly when its
    method is GET, HEAD or OPTIONS, in whatever case, or when the request
    carries under [X-CSRF-Token] a token that validates against the jar;
    the case in which the request writes its header names plays no part. *)
Theorem csrfProtection_decides (request : Http.Request) (w : World) :
  exists b : bool,
    csrfProtection request w = (Next b, w)
    /\ (b = true <-> safe_method (Http.method request) \/ header_token_valid request w)
    /\ csrfProtection (with_lowercase_names request) w = (Next b, w).
Proof.
  eexists. split; [apply csrfProtection_run|]. split.
  - unfold safe_method, header_token_valid, safe_method_pattern.
    rewrite orb_true_iff, bool_decide_eq_true.
    destruct (Http.headers_get _ _) as [t|]; split; intros [H|H]; auto.
    + right. eauto.
    + destruct H as (t' & [= <-] & H). auto.
    + discriminate.
    + destruct H as (t' & H & _). discriminate.
  - rewrite csrfProtection_run. unfold with_lowercase_names. cbn [Http.method Http.headers].
    rewrite headers_get_lowercase_names. reflexivity.
Qed.

(** The token of the route is good for the guard and for the actions: in
    the world [GET /api/csrf] leaves, a request that carries the token of
    the answer under [X-CSRF-Token], in whatever case the name is written,
    passes [csrfProtection] whatever its method, and a form that carries
    it in the field [csrf_token] has a token the actions accept. *)
Theorem route_token_is_accepted (w : World) :
  exists body w',
    CsrfRoute.GET w = (Next body, w')
    /\ (forall request name,
          Http.lowercase name = "x-csrf-token" ->
          Http.headers_get (Http.headers request) name
          = Some (CsrfRoute.csrfToken body) ->
          csrfProtection request w' = (Next true, w'))
    /\ (forall fd,
          FormData.get fd Csrf.FIELD_NAME = Some (CsrfRoute.csrfToken body) ->
          token_accepted fd w' = true)
    /\ vote_token_passes (Some (CsrfRoute.csrfToken body)) w' = true.
Proof.
  destruct (setCSRFToken_total w) as (s & w' & Hs).
  exists {| CsrfRoute.csrfToken := s |}, w'.
  assert (Hrun : CsrfRoute.GET w = (Next {| CsrfRoute.csrfToken := s |}, w')).
  { unfold CsrfRoute.GET, Csrf.getCSRFToken, bind. rewrite Hs. reflexivity. }
  apply issued_cookie in Hs as [Hc Hl].
  assert (Hv : valid_in (cookies w') s = true).
  { apply (valid_in_issued _ s); [exact Hc|]. split; [|reflexivity].
    intros ->. discriminate Hl. }
  split; [exact Hrun|]. cbn [CsrfRoute.csrfToken]. split; [|split].
  - intros request name Hn Hg. rewrite csrfProtection_run.
    assert (E : Http.headers_get (Http.headers request) Csrf.CSRF_HEADER_NAME
                = Http.headers_get (Http.headers request) name).
    { unfold Http.headers_get. rewrite Hn. reflexivity. }
    rewrite E, Hg, Hv, orb_true_r. reflexivity.
  - intros fd Hfd. unfold token_accepted. rewrite Hfd. exact Hv.
  - unfold vote_token_passes. rewrite Hv, orb_true_r. reflexivity.
Qed.

End Guard.

(** ** The middleware *)

Section MiddlewareProperties.

Import Middleware.

Variable R : Type.
Variable updateSession : Http.Request -> World -> R * World.

Lemma isAdmin_run (request : Http.Request) (w : World) :
  isAdmin request w
  = (Next (identity_is_admin w), with_journal (journal w ++ [EvGetUser]) w).
Proof.
  unfold isAdmin, identity_is_admin, Backend.auth_getUser, emit, bind, pure.
  cbn [faults session with_journal]. destruct (faults w AuthGetUser); [reflexivity|].
  destruct (session w); reflexivity.
Qed.

Lemma listed_method_safe (method : string) :
  method ∈ ["GET"; "HEAD"; "OPTIONS"] -> safe_method method.
Proof.
  unfold safe_method. intros H.
  repeat (apply elem_of_cons in H as [->|H]; [apply (bool_decide_unpack _); vm_compute; exact I|]).
  apply elem_of_nil in H. contradiction.
Qed.

Lemma exempt_paths (path : string) :
  existsb (fun p => Http.startsWith path p) ["/api/auth"; "/_next"; "/favicon.ico"]
  = csrf_exempt path.
Proof.
  unfold csrf_exempt. cbn [existsb].
  destruct (Http.startsWith path "/api/auth"), (Http.startsWith path "/_next"),
    (Http.startsWith path "/favicon.ico"); reflexivity.
Qed.

Lemma header_token_ok_iff (request : Http.Request) (w : World) :
  header_token_ok request w = true <-> header_token_valid request w.
Proof.
  unfold header_token_ok, header_token_valid.
  destruct (Http.headers_get _ _) as [t|]; split.
  - eauto.
  - intros (t' & [= <-] & H). exact H.
  - discriminate.
  - intros (t' & H & _). discriminate.
Qed.

Lemma untokened_write_iff (request : Http.Request) (w : World) :
  untokened_write request w = true <->
  csrf_exempt (Http.pathname (Http.nextUrl request)) = false
  /\ ~ safe_method (Http.method request)
  /\ ~ header_token_valid request w.
Proof.
  unfold untokened_write, CsrfGuard.safe_method_pattern.
  rewrite !andb_true_iff, !negb_true_iff, bool_decide_eq_false.
  rewrite <- header_token_ok_iff, not_true_iff_false. fold (safe_method (Http.method request)).
  tauto.
Qed.

(** What the middleware answers once the admin guard is behind. *)
Lemma csrf_stage (request : Http.Request) (res : R) (w : World) :
  let path := Http.pathname (Http.nextUrl request) in
  (if negb (existsb (fun p => Http.startsWith path p)
              ["/api/auth"; "/_next"; "/favicon.ico"])
      && negb (bool_decide (Http.method request ∈ ["GET"; "HEAD"; "OPTIONS"]))
   then
     ok <- CsrfGuard.csrfProtection request ;;
     if negb ok then pure (Refused 403 "application/json" invalid_csrf_body)
     else pure (Through res)
   else pure (Through res)) w
  = (Next (if untokened_write request w
           then Refused 403 "application/json" invalid_csrf_body
           else Through res), w).
Proof.
  cbv zeta. rewrite exempt_paths. unfold untokened_write.
  destruct (csrf_exempt (Http.pathname (Http.nextUrl request))) eqn:Ex; cbn [negb andb];
    [reflexivity|].
  case_bool_decide as Hm; cbn [negb].
  { apply listed_method_safe in Hm. unfold CsrfGuard.safe_method_pattern.
    rewrite bool_decide_eq_true_2 by exact Hm. reflexivity. }
  unfold bind. rewrite csrfProtection_run. fold (header_token_ok request w).
  destruct (CsrfGuard.safe_method_pattern (Http.method request)),
    (header_token_ok request w); reflexivity.
Qed.

(** The admin pages are for admins: the middleware answers with a
    redirect exactly when the path begins with [/admin] and the auth
    service does not name an identity whose role is [admin]; the redirect
    is to the root, with the query as it was. Method and token play no
    part. *)
Theorem middleware_guards_admin_pages (request : Http.Request) (w : World)
  (url : Http.Url) :
  fst (middleware R updateSession request w) = Next (Redirect url) <->
  Http.startsWith (Http.pathname (Http.nextUrl request)) "/admin" = true
  /\ identity_is_admin (snd (updateSession request w)) = false
  /\ url = {| Http.pathname := "/"; Http.search := Http.search (Http.nextUrl request) |}.
Proof.
  unfold middleware. unfold bind at 1. destruct (updateSession request w) as [res w1].
  cbn [snd]. unfold bind at 1.
  destruct (Http.startsWith (Http.pathname (Http.nextUrl request)) "/admin").
  - rewrite isAdmin_run. destruct (identity_is_admin w1); cbn [negb].
    + rewrite csrf_stage. cbn [fst]. split; [|intros (_ & H & _); discriminate].
      destruct (untokened_write _ _); discriminate.
    + cbn [pure fst]. split; [intros [= <-]; auto | intros (_ & _ & ->); reflexivity].
  - cbn [pure negb]. rewrite csrf_stage. cbn [fst].
    split; [|intros (H & _); discriminate]. destruct (untokened_write _ _); discriminate.
Qed.

(** The middleware refuses with status 403 exactly the requests that got
    past the admin guard, whose path begins with none of [/api/auth],
    [/_next] and [/favicon.ico], whose method is not GET, HEAD or OPTIONS
    in any case, and that carry no valid token under [X-CSRF-Token]. A
    form token is not looked at. Whatever it answers, the middleware
    leaves the tables and the jar as [updateSession] left them, and what
    it lets through is the response of [updateSession]. *)
Theorem middleware_refuses_untokened_writes (request : Http.Request) (w : World) :
  let path := Http.pathname (Http.nextUrl request) in
  let w1 := snd (updateSession request w) in
  exists answer w',
    middleware R updateSession request w = (Next answer, w')
    /\ untouched w1 w'
    /\ (answer = Refused 403 "application/json" invalid_csrf_body <->
        (Http.startsWith path "/admin" = false \/ identity_is_admin w1 = true)
        /\ csrf_exempt path = false
        /\ ~ safe_method (Http.method request)
        /\ ~ header_token_valid request w1)
    /\ (forall status content_type body,
          answer = Refused status content_type body ->
          answer = Refused 403 "application/json" invalid_csrf_body)
    /\ (forall res, answer = Through res -> res = fst (updateSession request w)).
Proof.
  cbv zeta. unfold middleware. unfold bind at 1.
  destruct (updateSession request w) as [res w1]. cbn [fst snd]. unfold bind at 1.
  assert (Stage : forall w2 guard, cookies w2 = cookies w1 -> guard ->
            exists answer,
              (Next (if untokened_write request w2
                     then Refused 403 "application/json" invalid_csrf_body
                     else Through res), w2) = (Next answer, w2)
              /\ (answer = Refused 403 "application/json" invalid_csrf_body <->
                  guard
                  /\ csrf_exempt (Http.pathname (Http.nextUrl request)) = false
                  /\ ~ safe_method (Http.method request)
                  /\ ~ header_token_valid request w1)
              /\ (forall status content_type body,
                    answer = Refused status content_type body ->
                    answer = Refused 403 "application/json" invalid_csrf_body)
              /\ (forall res', answer = Through res' -> res' = res)).
  { intros w2 guard Hc Hg.
    assert (E : untokened_write request w2 = untokened_write request w1)
      by (unfold untokened_write, header_token_ok; rewrite Hc; reflexivity).
    rewrite E. pose proof (untokened_write_iff request w1) as Hu.
    destruct (untokened_write request w1); eexists; (split; [reflexivity|]).
    - split; [|split]; [|intros; reflexivity|discriminate].
      split; [intros _; split; [exact Hg|apply Hu; reflexivity]|reflexivity].
    - split; [|split]; [|discriminate|intros res' [= <-]; reflexivity].
      split; [discriminate|]. intros (_ & H). apply Hu in H. discriminate. }
  destruct (Http.startsWith (Http.pathname (Http.nextUrl request)) "/admin").
  - rewrite isAdmin_run. destruct (identity_is_admin w1) eqn:Adm; cbn [negb].
    + rewrite csrf_stage.
      destruct (Stage (with_journal (journal w1 ++ [EvGetUser]) w1)
                  (false = false \/ true = true) eq_refl (or_intror eq_refl))
        as (answer & -> & H1 & H2 & H3).
      eexists _, _. split; [reflexivity|]. split; [unfold untouched; cbn; auto|].
      split; [|auto]. rewrite H1. intuition congruence.
    + cbn [pure]. eexists _, _. split; [reflexivity|].
      split; [unfold untouched; cbn; auto|].
      split; [|split]; try (intros; congruence).
      split; [discriminate|]. intros ([H|H] & _); discriminate.
  - cbn [pure negb]. rewrite csrf_stage.
    destruct (Stage w1 (false = false \/ identity_is_admin w1 = true)
                eq_refl (or_introl eq_refl)) as (answer & -> & H1 & H2 & H3).
    eexists _, _. split; [reflexivity|]. split; [unfold untouched; auto|]. auto.
Qed.

End MiddlewareProperties.

(** ** The fetch wrapper *)

Section Wrapper.

Import CsrfFetch.

Lemma filter_hit_after_miss (n : string) (h : Http.Headers) :
  filter (fun e => Http.lowercase (fst e) = n)
         (filter (fun e => Http.lowercase (fst e) <> n) h) = [].
Proof.
  induction h as [|e rest IH]; [reflexivity|].
  rewrite (filter_cons (fun e => Http.lowercase (fst e) <> n)).
  destruct (decide (Http.lowercase (fst e) <> n)) as [Hne|_]; [|exact IH].
  rewrite filter_cons, decide_False by exact Hne. exact IH.
Qed.

Lemma headers_set_first_found (n v : string) (h : Http.Headers) :
  Http.lowercase n = n ->
  Exists (fun e => Http.lowercase (fst e) = n) h ->
  filter (fun e => Http.lowercase (fst e) = n) (headers_set_first n v h) = [(n, v)].
Proof.
  intros Hn. induction h as [|e rest IH]; intros Hex; [inversion Hex|].
  cbn [headers_set_first]. case_bool_decide as He.
  - rewrite filter_cons, decide_True by exact Hn.
    rewrite filter_hit_after_miss. reflexivity.
  - rewrite filter_cons, decide_False by exact He. apply IH.
    apply Exists_cons in Hex as [Hex|Hex]; [contradiction|exact Hex].
Qed.

Lemma headers_set_first_others (n n' v : string) (h : Http.Headers) :
  Http.lowercase n = n -> n' <> n ->
  filter (fun e => Http.lowercase (fst e) = n') (headers_set_first n v h)
  = filter (fun e => Http.lowercase (fst e) = n') h.
Proof.
  intros Hn Hne. induction h as [|e rest IH]; [reflexivity|].
  cbn [headers_set_first]. case_bool_decide as He.
  - rewrite !filter_cons. cbn [fst]. rewrite Hn.
    rewrite decide_False by congruence. rewrite decide_False by congruence.
    apply list_filter_filter_l. intros x Hx. congruence.
  - rewrite !filter_cons, IH. reflexivity.
Qed.

(** What is set under a name is what is got under it, alone, however the
    name is written and whatever was there; the other names keep what
    they had. *)
Lemma headers_get_set (h : Http.Headers) (name name' value : string) :
  Http.headers_get (headers_set h name value) name'
  = if bool_decide (Http.lowercase name' = Http.lowercase name) then Some value
    else Http.headers_get h name'.
Proof.
  unfold Http.headers_get, headers_set. cbv zeta.
  pose proof (lowercase_lowercase name) as Hn.
  destruct (decide (Http.lowercase name' = Http.lowercase name)) as [Hsame|Hsame].
  - rewrite (bool_decide_eq_true_2 _ Hsame), Hsame.
    destruct (decide (Exists (fun e => Http.lowercase (fst e) = Http.lowercase name) h))
      as [Hex|Hex].
    + rewrite (bool_decide_eq_true_2 _ Hex).
      rewrite headers_set_first_found by assumption. reflexivity.
    + rewrite (bool_decide_eq_false_2 _ Hex), filter_app.
      assert (E : filter (fun e => Http.lowercase (fst e) = Http.lowercase name) h = []).
      { destruct (filter _ h) as [|x l] eqn:F; [reflexivity|]. exfalso. apply Hex.
        assert (Hx : x ∈ filter (fun e => Http.lowercase (fst e) = Http.lowercase name) h)
          by (rewrite F; left).
        apply list_elem_of_filter in Hx as [Hx1 Hx2].
        apply Exists_exists. eauto. }
      rewrite E, filter_cons. cbn [fst]. rewrite decide_True by exact Hn. reflexivity.
  - rewrite (bool_decide_eq_false_2 _ Hsame).
    destruct (decide (Exists (fun e => Http.lowercase (fst e) = Http.lowercase name) h))
      as [Hex|Hex].
    + rewrite (bool_decide_eq_true_2 _ Hex).
      rewrite headers_set_first_others by assumption. reflexivity.
    + rewrite (bool_decide_eq_false_2 _ Hex), filter_app, filter_cons. cbn [fst].
      rewrite Hn. rewrite decide_False by congruence.
      rewrite filter_nil, app_nil_r. reflexivity.
Qed.

Section AnyFetch.

Variable fetch : string -> option Options -> World -> Settled FetchResponse * World.

(** [csrfFetch] either hands the request to [fetch] as it is, when the
    request sets [skipCSRF], names no method, or names GET, HEAD or OPTIONS
    in any case; or it first asks [/api/csrf] for a token. If that fails,
    answers without success, or answers with a body that cannot be read,
    the wrapper fails the same way and the request is not sent. Otherwise
    the request goes out with the token as its only [X-CSRF-Token] header,
    whatever it carried under that name, and with every other header as it
    was. *)
Theorem csrfFetch_adds_the_token (url : string) (options : Options) (w : World) :
  (needs_token options = false ->
   csrfFetch fetch url options w = fetch url (Some options) w)
  /\ (needs_token options = true ->
      match fetch "/api/csrf" None w with
      | (Rejected reason, w') => csrfFetch fetch url options w = (Rejected reason, w')
      | (Fulfilled response, w') =>
          if ok response then
            match json_csrfToken response with
            | Rejected reason => csrfFetch fetch url options w = (Rejected reason, w')
            | Fulfilled token =>
                exists hs,
                  csrfFetch fetch url options w
                  = fetch url (Some (with_headers hs options)) w'
                  /\ (forall name,
                        Http.headers_get hs name
                        = if bool_decide (Http.lowercase name = "x-csrf-token")
                          then Some token
                          else Http.headers_get (default [] (headers options)) name)
            end
          else csrfFetch fetch url options w = (Rejected "Failed to fetch CSRF token", w')
      end).
Proof.
  unfold needs_token, csrfFetch, getCSRFToken. split.
  - intros H. apply negb_false_iff in H. rewrite H. reflexivity.
  - intros H. apply negb_true_iff in H. rewrite H.
    destruct (fetch "/api/csrf" None w) as [[response|reason] w']; [|reflexivity].
    destruct (ok response); cbn [negb]; [|reflexivity].
    destruct (json_csrfToken response) as [token|reason]; [|reflexivity].
    eexists. split; [reflexivity|]. intros name. rewrite headers_get_set.
    change (Http.lowercase Csrf.HEADER_NAME) with "x-csrf-token".
    destruct (bool_decide (Http.lowercase name = "x-csrf-token")); [reflexivity|].
    unfold new_Headers. apply headers_get_lowercase_names.
Qed.

(** The wrapper and the guard fit: when [/api/csrf] is answered by the
    token route, a request the wrapper asks a token for goes out with
    headers that pass [csrfProtection], under any method, in the world the
    route left. *)
Theorem csrfFetch_passes_the_guard (url : string) (options : Options) (w w' : World)
  (body : CsrfRoute.Body) :
  CsrfRoute.GET w = (Next body, w') ->
  fetch "/api/csrf" None w
  = (Fulfilled {| ok := true; json_csrfToken := Fulfilled (CsrfRoute.csrfToken body) |},
     w') ->
  needs_token options = true ->
  exists hs,
    csrfFetch fetch url options w = fetch url (Some (with_headers hs options)) w'
    /\ forall method nextUrl,
         CsrfGuard.csrfProtection
           {| Http.method := method; Http.nextUrl := nextUrl; Http.headers := hs |} w'
         = (Next true, w').
Proof.
  intros Hroute Hfetch Hneeds.
  assert (Hv : valid_in (cookies w') (CsrfRoute.csrfToken body) = true).
  { unfold CsrfRoute.GET, Csrf.getCSRFToken, bind in Hroute.
    destruct (setCSRFToken_total w) as (s & w1 & Hs). rewrite Hs in Hroute.
    injection Hroute as <- <-. cbn [CsrfRoute.csrfToken].
    apply issued_cookie in Hs as [Hc Hl].
    apply (valid_in_issued _ s); [exact Hc|]. split; [|reflexivity].
    intros ->. discriminate Hl. }
  unfold needs_token in Hneeds. apply negb_true_iff in Hneeds.
  unfold csrfFetch, getCSRFToken. rewrite Hneeds, Hfetch. cbn [ok negb json_csrfToken].
  eexists. split; [reflexivity|]. intros method nextUrl.
  rewrite csrfProtection_run. cbn [Http.method Http.headers].
  rewrite headers_get_set, bool_decide_eq_true_2 by reflexivity.
  rewrite Hv, orb_true_r. reflexivity.
Qed.

End AnyFetch.

Lemma csrfFetch_passes_the_guard_witness :
  exists hs,
    csrfFetch sample_fetch "/polls/p1" delete_request (sample_world (Some alice))
    = sample_fetch "/polls/p1" (Some (with_headers hs delete_request))
        (issued_world (Some alice))
    /\ forall method nextUrl,
         CsrfGuard.csrfProtection
           {| Http.method := method; Http.nextUrl := nextUrl; Http.headers := hs |}
           (issued_world (Some alice))
         = (Next true, issued_world (Some alice)).
Proof.
  apply (csrfFetch_passes_the_guard sample_fetch "/polls/p1" delete_request
           (sample_world (Some alice)) (issued_world (Some alice))
           {| CsrfRoute.csrfToken := first_secret |}).
  - reflexivity.
  - reflexivity.
  - vm_compute. reflexivity.
Defined.

End Wrapper.

(** ** The form that creates a poll *)

Section Form.

Import PollCreateForm.

Lemma without_index_length (idx : nat) (opts : list string) :
  length opts - 1 <= length (without_index idx opts).
Proof.
  revert idx. induction opts as [|o opts IH]; intros idx; [simpl; lia|].
  destruct idx as [|idx]; cbn [without_index length]; [lia|].
  specialize (IH idx). lia.
Qed.

Lemma handle_keeps_two (opts : list string) (e : Event) :
  2 <= length opts -> 2 <= length (handle opts e).
Proof.
  intros H. destruct e as [idx value| |idx]; cbn [handle].
  - unfold handleOptionChange. rewrite length_imap. exact H.
  - unfold addOption. rewrite length_app. simpl. lia.
  - unfold removeOption. destruct (2 <? length opts)%nat eqn:C; [|exact H].
    apply Nat.ltb_lt in C. pose proof (without_index_length idx opts). lia.
Qed.

(** The form never shows fewer than two option fields, whatever the user
    does, and in whatever order: typing, adding, removing, each event
    handled by the form as rendered after the one before. Typing in a
    field changes that field and no other. *)
Theorem form_keeps_two_fields (events : list Event) :
  2 <= length (fold_left handle events initial)
  /\ forall opts idx value i,
       handleOptionChange idx value opts !! i
       = if bool_decide (i = idx) then (fun _ => value) <$> opts !! i else opts !! i.
Proof.
  split.
  - assert (G : forall opts, 2 <= length opts -> 2 <= length (fold_left handle events opts)).
    { induction events as [|e events IH]; intros opts H; [exact H|].
      cbn [fold_left]. apply IH, handle_keeps_two, H. }
    apply G. reflexivity.
  - intros opts idx value i. unfold handleOptionChange. rewrite list_lookup_imap.
    case_bool_decide; destruct (opts !! i); reflexivity.
Qed.

(** The form sends no token, so it never creates a poll: whatever the
    question and the option fields hold, and whatever the jar holds,
    submitting the form has [createPoll] answer the token error, and
    nothing is written. *)
Theorem form_submission_is_refused (question : string) (opts : list string) (w : World) :
  run (submit question opts) w = ({| error := Some PollActions.invalid_token |}, w).
Proof.
  unfold submit. rewrite createPoll_gate, gate_run.
  assert (E : token_accepted (formData question opts) w = false).
  { unfold token_accepted, formData, FormData.get.
    rewrite filter_cons, decide_False by discriminate.
    assert (F : filter (fun e => fst e = Csrf.FIELD_NAME)
                  ((fun o => ("options", o)) <$> opts) = []).
    { induction opts as [|o opts IH]; [reflexivity|].
      rewrite fmap_cons, filter_cons, decide_False by discriminate. exact IH. }
    rewrite F. reflexivity. }
  rewrite E. reflexivity.
Qed.

End Form.
